(** * Verification of the scraping engine of [scraping_charger_data]

    Shallow embedding of [src/scrapers/with_requests/base_scraper.py] and
    [src/scrapers/with_requests/scrape_prices_with_api.py]:
    the constructor, the sequential batch runner [query_urls], the
    partitioning and merging of [query_urls_parallel], the entry point [run]
    and the tabular transform [into_DataFrame].

    Conventions of the embedding.
    - Python exceptions are values of type [exception]; a computation either
      returns or raises ([completion]).
    - Observable effects (sleeping, calls of the abstract [query_url], log
      records, the JSON dump) are collected in a trace of [event]s by the
      writer/error monad [M].
    - The abstract methods [__setup__] and [query_url] of the class are
      variables of the section; [query_url] is a function of its arguments,
      i.e. the remote side answers the same request the same way during one
      run.
    - Dictionaries are [gmap]s; where Python's insertion order is observable
      (the sub-types of one charger) association lists are used. *)

From Stdlib Require Import ZArith QArith String Ascii List Lia.
From stdpp Require Import base option list strings pretty gmap.

Set Warnings "-register-all,-clear-no-such-hyp,-inconsistent-scopes".
Local Open Scope string_scope.
Local Open Scope list_scope.
Local Open Scope Z_scope.

(** ** Python values and exceptions *)

(** The Python values that reach the type checks of the constructor and of
    [run].  [PyObject ty] is any value of another class named [ty]. *)
Inductive pyval :=
| PyNone
| PyBool (b : bool)
| PyInt (z : Z)
| PyFloat (q : Q)
| PyStr (s : string)
| PyObject (type_name : string).

(** [isinstance(v, int)]: [bool] is a subclass of [int]. *)
Definition isinstance_int (v : pyval) : bool :=
  match v with PyBool _ | PyInt _ => true | _ => false end.


(** The integer an [int] instance denotes ([True] is 1, [False] is 0). *)
Definition int_value (v : pyval) : option Z :=
  match v with
  | PyInt z => Some z
  | PyBool b => Some (if b then 1 else 0)
  | _ => None
  end.

(** [type(v)] as printed inside an f-string. *)
Definition type_repr (v : pyval) : string :=
  "<class '" +:+
  match v with
  | PyNone => "NoneType"
  | PyBool _ => "bool"
  | PyInt _ => "int"
  | PyFloat _ => "float"
  | PyStr _ => "str"
  | PyObject ty => ty
  end +:+ "'>".

(** Exception classes: the classes of [requests.exceptions] (all of them
    derive from [RequestException]; [Timeout], [ConnectTimeout] and
    [ReadTimeout] are the timeouts), the builtins the code can raise, and
    [OtherError c] for any class [c] that does not derive from
    [RequestException]. *)
Inductive exc_class :=
| ConnectTimeout | ReadTimeout | Timeout
| ConnectionError | ProxyError | SSLError | HTTPError
| InvalidJSONError | JSONDecodeError
| URLRequired | TooManyRedirects | MissingSchema | InvalidSchema
| InvalidURL | InvalidProxyURL | InvalidHeader
| ChunkedEncodingError | ContentDecodingError | StreamConsumedError
| RetryError | UnrewindableBodyError
| RequestException
| KeyError | IndexError | ValueError | TypeError | UnboundLocalError
| OtherError (class_name : string).

Record exception := Exc { exc_type : exc_class; exc_msg : string }.

(** [isinstance(e, Timeout)] *)
Definition isinstance_Timeout (e : exception) : bool :=
  match exc_type e with
  | ConnectTimeout | ReadTimeout | Timeout => true
  | _ => false
  end.

(** [isinstance(e, RequestException)]: every class of
    [requests.exceptions], the timeouts and the JSON decoding error of
    [Response.json] included. *)
Definition isinstance_RequestException (e : exception) : bool :=
  match exc_type e with
  | KeyError | IndexError | ValueError | TypeError | UnboundLocalError
  | OtherError _ => false
  | _ => true
  end.

Inductive completion (A : Type) :=
| Returned (a : A)
| Raised (e : exception).
Arguments Returned {A} a.
Arguments Raised {A} e.

(** ** [str.format] with one positional argument

    Modelled for templates whose braces occur only as the auto-numbered
    field [{}] and the escapes [{{] and [}}]; [None] is returned for a
    template with any other replacement field (names, indices, conversions,
    format specs), which this development does not interpret. *)
Definition prepend (s : string) (r : option (completion string)) : option (completion string) :=
  match r with
  | Some (Returned t) => Some (Returned (s +:+ t))
  | other => other
  end.

Fixpoint format_chars (template : list ascii) (arg : string) (next_index : nat)
  : option (completion string) :=
  match template with
  | [] => Some (Returned "")
  | c :: rest =>
    if Ascii.eqb c "{" then
      match rest with
      | [] => Some (Raised (Exc ValueError "Single '{' encountered in format string"))
      | c2 :: rest2 =>
        if Ascii.eqb c2 "{" then prepend "{" (format_chars rest2 arg next_index)
        else if Ascii.eqb c2 "}" then
          match next_index with
          | O => prepend arg (format_chars rest2 arg 1)
          | S _ => Some (Raised (Exc IndexError
                     "Replacement index 1 out of range for positional args tuple"))
          end
        else None
      end
    else if Ascii.eqb c "}" then
      match rest with
      | c2 :: rest2 =>
        if Ascii.eqb c2 "}" then prepend "}" (format_chars rest2 arg next_index)
        else Some (Raised (Exc ValueError "Single '}' encountered in format string"))
      | [] => Some (Raised (Exc ValueError "Single '}' encountered in format string"))
      end
    else prepend (String c EmptyString) (format_chars rest arg next_index)
  end.

Definition str_format (template arg : string) : option (completion string) :=
  format_chars (list_ascii_of_string template) arg 0.

(** Number of substitution slots [{}] of a template (escapes skipped). *)
Fixpoint count_slots (template : list ascii) : nat :=
  match template with
  | [] => 0
  | c :: rest =>
    match rest with
    | c2 :: rest2 =>
      if Ascii.eqb c "{" && Ascii.eqb c2 "}" then S (count_slots rest2)
      else if Ascii.eqb c "{" && Ascii.eqb c2 "{" then count_slots rest2
      else if Ascii.eqb c "}" && Ascii.eqb c2 "}" then count_slots rest2
      else count_slots rest
    | [] => 0
    end
  end%nat.

(** A template without any brace: it has no substitution slot. *)
Definition braceless (template : string) : Prop :=
  Forall (fun c => c <> "{"%char /\ c <> "}"%char) (list_ascii_of_string template).

(** ** [numpy.array_split] on a one-dimensional sequence

    Follows numpy's definition for an integer number of sections:
    [Neach_section, extras = divmod(Ntotal, Nsections)], the section sizes
    [[0] + extras * [Neach_section+1] + (Nsections-extras) * [Neach_section]],
    their cumulative sums as division points, and the slices between
    consecutive division points.  The slices are taken from the array numpy
    makes of the list; [array_item] is what that array holds for an element
    of the list.  For strings the array has a fixed-width unicode type,
    which drops the NUL characters at the end of a string. *)
Class ArrayItem (A : Type) := array_item : A -> A.

(** A string as a numpy unicode array returns it: without trailing NULs. *)
Fixpoint np_str (s : string) : string :=
  match s with
  | EmptyString => EmptyString
  | String c s' =>
    match np_str s' with
    | EmptyString => if Ascii.eqb c "000" then EmptyString else String c EmptyString
    | rest => String c rest
    end
  end.

#[global] Instance string_array_item : ArrayItem string := np_str.

(** The last character of [s] is NUL. *)
Fixpoint nul_terminated (s : string) : bool :=
  match s with
  | EmptyString => false
  | String c EmptyString => Ascii.eqb c "000"
  | String _ s' => nul_terminated s'
  end.

Definition section_sizes (Ntotal Nsections : nat) : list nat :=
  let Neach_section := (Ntotal / Nsections)%nat in
  let extras := (Ntotal mod Nsections)%nat in
  O :: replicate extras (Neach_section + 1)%nat
       ++ replicate (Nsections - extras) Neach_section.

Fixpoint cumsum_from (acc : nat) (l : list nat) : list nat :=
  match l with
  | [] => []
  | x :: l' => (acc + x)%nat :: cumsum_from (acc + x) l'
  end.

Definition cumsum (l : list nat) : list nat := cumsum_from 0 l.

(** The slice [l[st:end]] for [0 <= st], [0 <= end]. *)
Definition slice {A} (l : list A) (st end_ : nat) : list A :=
  take (end_ - st) (drop st l).

Definition array_split {A} `{ArrayItem A} (ary : list A) (indices_or_sections : Z)
  : completion (list (list A)) :=
  let Ntotal := length ary in
  let Nsections := indices_or_sections in
  if Nsections <=? 0 then
    Raised (Exc ValueError "number sections must be larger than 0.")
  else
    let div_points := cumsum (section_sizes Ntotal (Z.to_nat Nsections)) in
    let sary := map array_item ary in
    Returned
      (map (fun i => slice sary (div_points !!! i) (div_points !!! (S i)))
           (seq 0 (Z.to_nat Nsections))).

(** ** Effects *)

Inductive log_level := DEBUG | INFO | WARNING | ERROR.

Section Effects.

(** The payload a fetch returns is opaque to the base class. *)
Variable Payload : Type.

(** Observable effects, in program order.  [Worker i t] stands for the
    events [t] of the [i]-th worker thread; events of different workers are
    not ordered with respect to each other. *)
Inductive event :=
| Sleep (seconds : Q)
| Query (url : string)
| Log (level : log_level) (msg : string)
| JsonDump (path keyword : string) (content : gmap string Payload)
| Worker (i : nat) (events : list event).

Definition M (A : Type) : Type := (list event * completion A)%type.

Definition ret {A} (a : A) : M A := ([], Returned a).
Definition raise {A} (e : exception) : M A := ([], Raised e).
Definition emit (ev : event) : M unit := ([ev], Returned tt).
Definition bind {A B} (m : M A) (k : A -> M B) : M B :=
  match m with
  | (t, Returned a) => let '(t', r) := k a in (t ++ t', r)
  | (t, Raised e) => (t, Raised e)
  end.

(** [try: m except ...: h]: [h e] is [None] when no clause matches [e]. *)
Definition try_except {A} (m : M A) (h : exception -> option (M A)) : M A :=
  match m with
  | (t, Returned a) => (t, Returned a)
  | (t, Raised e) =>
    match h e with
    | Some k => let '(t', r) := k in (t ++ t', r)
    | None => (t, Raised e)
    end
  end.

Definition logging (level : log_level) (msg : string) : M unit := emit (Log level msg).

End Effects.

Arguments Sleep {Payload} seconds.
Arguments Query {Payload} url.
Arguments Log {Payload} level msg.
Arguments JsonDump {Payload} path keyword content.
Arguments Worker {Payload} i events.
Arguments ret {Payload A} a.
Arguments raise {Payload A} e.
Arguments emit {Payload} ev.
Arguments bind {Payload A B} m k.
Arguments try_except {Payload A} m h.
Arguments logging {Payload} level msg.

Notation "x <- m ;; k" := (bind m (fun x => k))
  (at level 100, m at next level, right associativity).
Notation "m ;;; k" := (bind m (fun _ => k))
  (at level 100, right associativity).

(** ** The engine *)

(** The abstract methods of [base_scraper]: [__setup__] prepares the tools
    of one batch, [query_url] fetches one URL and returns its payload or
    raises. *)
Class Scraper (Payload Tools : Type) := {
  __setup__ : bool -> Tools;
  query_url : string -> Tools -> gmap string pyval -> completion Payload }.

(** [open(fname, "w")] and [json.dump] as [dump_as_json] calls them, for
    the directory, the keyword and the map: [None] when the file is
    written, [Some e] when one of the two calls raises [e] (a directory
    that does not exist, a payload json cannot encode). *)
Class FileSystem (Payload : Type) :=
  json_dump : string -> string -> gmap string Payload -> option exception.

(** The configuration bag [options] as the constructor reads it: the two
    recognised keys and the remaining keyword arguments for the transport. *)
Record options_bag := {
  opt_sleep_in_seconds : option Q;
  opt_nmaxtimeouts : option Z;
  opt_kwargs : gmap string pyval }.

Definition no_options : options_bag :=
  {| opt_sleep_in_seconds := None; opt_nmaxtimeouts := None; opt_kwargs := ∅ |}.

(** The two closures [__sleep_func] can return. *)
Inductive sleep_func :=
| SleepFor (seconds : Q)    (* [lambda: sleep(sleep_in_seconds)] *)
| NoSleep.                  (* [lambda: None] *)

(** The attributes of an instance. *)
Record base_scraper (Payload : Type) := {
  url_re : string;
  identifiers : list string;
  urls : list string;
  urls_to_scrape : list string;
  identifiers_urls : gmap string string;
  out_path : string;
  keyword : string;
  silent : bool;
  save_json : bool;
  _sleep : sleep_func;
  options : gmap string pyval;
  nmaxtimeouts : Z;
  self_results : gmap string Payload }.
Arguments url_re {Payload} _.
Arguments identifiers {Payload} _.
Arguments urls {Payload} _.
Arguments urls_to_scrape {Payload} _.
Arguments identifiers_urls {Payload} _.
Arguments out_path {Payload} _.
Arguments keyword {Payload} _.
Arguments silent {Payload} _.
Arguments save_json {Payload} _.
Arguments _sleep {Payload} _.
Arguments options {Payload} _.
Arguments nmaxtimeouts {Payload} _.
Arguments self_results {Payload} _.

(** The local variables of [query_urls] that the loop changes. *)
Record locals (Payload : Type) := {
  results : gmap string Payload;
  ntimeouts : Z;
  timeoutted_identifiers : list string }.
Arguments results {Payload} _.
Arguments ntimeouts {Payload} _.
Arguments timeoutted_identifiers {Payload} _.

Inductive control := Continue | Break.

(** [[self.url_re.format(identifier) for identifier in identifiers]]; the
    list is also stored in [self.urls_to_scrape]. *)
Fixpoint construct_urls (template : string) (ids : list string)
  : option (completion (list string)) :=
  match ids with
  | [] => Some (Returned [])
  | identifier :: rest =>
    match str_format template identifier with
    | None => None
    | Some (Raised e) => Some (Raised e)
    | Some (Returned url) =>
      match construct_urls template rest with
      | Some (Returned l) => Some (Returned (url :: l))
      | other => other
      end
    end
  end.

(** [dict(zip(keys, values))]: a later pair overrides an earlier one. *)
Definition dict_zip (keys values : list string) : gmap string string :=
  foldl (fun d kv => <[kv.1 := kv.2]> d) ∅ (zip keys values).

Section Engine.

Context {Payload Tools : Type} {impl : Scraper Payload Tools} {fs : FileSystem Payload}.

Definition with_results (self : base_scraper Payload) (r : gmap string Payload)
  : base_scraper Payload :=
  {| url_re := url_re self; identifiers := identifiers self; urls := urls self;
     urls_to_scrape := urls_to_scrape self;
     identifiers_urls := identifiers_urls self; out_path := out_path self;
     keyword := keyword self; silent := silent self; save_json := save_json self;
     _sleep := _sleep self; options := options self;
     nmaxtimeouts := nmaxtimeouts self; self_results := r |}.

Definition __sleep_func (sleep_in_seconds : Q) : sleep_func :=
  if Qlt_le_dec 0 sleep_in_seconds then SleepFor sleep_in_seconds else NoSleep.

(** Calling the stored closure: [self._sleep()]. *)
Definition call_sleep (f : sleep_func) : M Payload unit :=
  match f with
  | SleepFor seconds => emit (Sleep seconds)
  | NoSleep => ret tt
  end.

(** [base_scraper.__init__]; [self.results] starts empty as
    [scraper.__init__] sets it.  The result is [None] only when the
    template is outside the modelled fragment of [str.format]. *)
Definition __init__ (keyword_ : pyval) (out_path_ : string) (identifiers_ : list string)
    (url_re_ : pyval) (silent_ save_json_ : bool) (options_ : option options_bag)
  : option (M Payload (base_scraper Payload)) :=
  match url_re_ with
  | PyStr template =>
    match keyword_ with
    | PyStr kw =>
      match construct_urls template identifiers_ with
      | None => None
      | Some (Raised e) => Some (raise e)
      | Some (Returned urls_) =>
        match construct_urls template identifiers_ with
        | None => None
        | Some (Raised e) => Some (raise e)
        | Some (Returned urls2) =>
          let opts := default no_options options_ in
          let sleep_in_seconds := default (0 # 1)%Q (opt_sleep_in_seconds opts) in
          Some (ret {| url_re := template; identifiers := identifiers_; urls := urls_;
                       urls_to_scrape := urls2;
                       identifiers_urls := dict_zip identifiers_ urls2;
                       out_path := out_path_; keyword := kw; silent := silent_;
                       save_json := save_json_;
                       _sleep := __sleep_func sleep_in_seconds;
                       options := opt_kwargs opts;
                       nmaxtimeouts := default 10 (opt_nmaxtimeouts opts);
                       self_results := ∅ |})
        end
      end
    | _ => Some (raise (Exc TypeError "keyword must be a str. Give it a name that specifies "))
    end
  | _ => Some (raise (Exc TypeError
           "url_re must be a str template consisting of an url with variable input"))
  end.

(** *** The sequential batch runner *)

(** [d[key]] *)
Definition getitem (d : gmap string string) (key : string) : M Payload string :=
  match d !! key with
  | Some v => ret v
  | None => raise (Exc KeyError key)
  end.

(** One call of the abstract [query_url], recorded in the trace. *)
Definition call_query_url (url : string) (scraper_tools : Tools)
    (options_ : gmap string pyval) : M Payload Payload :=
  ([Query url], query_url url scraper_tools options_).

(** The locals after a failure was counted. *)
Definition count_failure (st : locals Payload) (timeoutted : list string) : locals Payload :=
  {| results := results st;
     ntimeouts := ntimeouts st + 1;
     timeoutted_identifiers := timeoutted_identifiers st ++ timeoutted |}.

(** The [except] clauses of the loop body, in source order. *)
Definition handlers (self : base_scraper Payload) (nmaxtimeouts_ : Z)
    (identifier : string) (st : locals Payload) (e : exception)
  : option (M Payload (locals Payload * control)) :=
  if isinstance_Timeout e then Some (
    logging WARNING
      ("Connection timeout - server took too long to respond for " +:+ identifier) ;;;
    let st' := count_failure st [identifier] in
    if ntimeouts st' >? nmaxtimeouts self then
      logging ERROR "reached maximum timeouts" ;;;
      logging ERROR "===== Full Stop  =====" ;;;
      ret (st', Break)
    else ret (st', Continue))
  else if isinstance_RequestException e then Some (
    logging WARNING
      ("Request failed: " +:+ exc_msg e +:+ " for " +:+ identifier) ;;;
    let st' := count_failure st [] in
    if ntimeouts st' >=? nmaxtimeouts_ then
      logging ERROR "reached maximum timeouts" ;;;
      logging ERROR "===== Full Stop  =====" ;;;
      ret (st', Break)
    else ret (st', Continue))
  else None.

(** The body of [for identifier in identifiers:]. *)
Definition loop_body (self : base_scraper Payload) (scraper_tools : Tools)
    (options_ : gmap string pyval) (nmaxtimeouts_ : Z)
    (identifier : string) (st : locals Payload) : M Payload (locals Payload * control) :=
  call_sleep (_sleep self) ;;;
  url <- getitem (identifiers_urls self) identifier ;;
  try_except
    (result <- call_query_url url scraper_tools options_ ;;
     logging DEBUG ("scraped " +:+ identifier) ;;;
     ret ({| results := <[identifier := result]> (results st);
             ntimeouts := ntimeouts st;
             timeoutted_identifiers := timeoutted_identifiers st |}, Continue))
    (handlers self nmaxtimeouts_ identifier st).

(** The [for] loop; the flag tells whether it was left by [break]. *)
Fixpoint for_loop (self : base_scraper Payload) (scraper_tools : Tools)
    (options_ : gmap string pyval) (nmaxtimeouts_ : Z)
    (ids : list string) (st : locals Payload) : M Payload (locals Payload * control) :=
  match ids with
  | [] => ret (st, Continue)
  | identifier :: rest =>
    r <- loop_body self scraper_tools options_ nmaxtimeouts_ identifier st ;;
    match r.2 with
    | Continue => for_loop self scraper_tools options_ nmaxtimeouts_ rest r.1
    | Break => ret r
    end
  end.

Definition init_locals : locals Payload :=
  {| results := ∅; ntimeouts := 0; timeoutted_identifiers := [] |}.

(** [query_urls] up to its [return]: the setup, the initial locals and the
    loop. *)
Definition query_loop (self : base_scraper Payload) (ids : list string)
  : M Payload (locals Payload * control) :=
  let scraper_tools := __setup__ (silent self) in
  let options_ := options self in
  let nmaxtimeouts_ := nmaxtimeouts self in
  for_loop self scraper_tools options_ nmaxtimeouts_ ids init_locals.

Definition query_urls (self : base_scraper Payload) (ids : list string)
  : M Payload (gmap string Payload) :=
  r <- query_loop self ids ;;
  ret (results r.1).

(** *** Partitioning, workers and merge *)

(** [list(executor.map(f, shards))]: every worker runs; the results are
    collected in shard order and the first exception met this way is
    raised. *)
Fixpoint collect {A} (runs : list (M Payload A)) : completion (list A) :=
  match runs with
  | [] => Returned []
  | (_, Raised e) :: _ => Raised e
  | (_, Returned a) :: rest =>
    match collect rest with
    | Returned l => Returned (a :: l)
    | Raised e => Raised e
    end
  end.

Definition executor_map {A B} (f : A -> M Payload B) (inputs : list A) : M Payload (list B) :=
  let runs := map f inputs in
  (imap (fun i (r : M Payload B) => Worker i r.1) runs, collect runs).

(** [{k: v for results_worker in results_workers for k, v in
    results_worker.items()}]: a later worker's entry overrides. *)
Definition flatten (results_workers : list (gmap string Payload)) : gmap string Payload :=
  foldl (fun acc results_worker => results_worker ∪ acc) ∅ results_workers.

Definition query_urls_parallel (self : base_scraper Payload) (max_workers : Z)
  : M Payload (gmap string Payload) :=
  match array_split (identifiers self) max_workers with
  | Raised e => raise e
  | Returned input_ids =>
    results_workers <- executor_map (query_urls self) input_ids ;;
    ret (flatten results_workers)
  end.

(** The event [JsonDump] stands for a file that was written; when the
    opening or the encoding raises, the exception leaves [dump_as_json]. *)
Definition dump_as_json (self : base_scraper Payload) (results_ : gmap string Payload)
  : M Payload unit :=
  if save_json self then
    match json_dump (out_path self) (keyword self) results_ with
    | Some e => raise e
    | None =>
      emit (JsonDump (out_path self) (keyword self) results_) ;;;
      logging INFO ("Dumping " +:+ keyword self +:+ "-data as json file at "
                    +:+ out_path self +:+ ".")
    end
  else ret tt.

(** [run]: returns the instance with [self.results] set; [self.results]
    is assigned before the dump, whose exception, if any, leaves [run]. *)
Definition run (self : base_scraper Payload) (max_workers : pyval)
  : M Payload (base_scraper Payload) :=
  match int_value max_workers with
  | None =>
    raise (Exc ValueError ("max_worker is of type " +:+ type_repr max_workers
                           +:+ ". Should be Int."))
  | Some w =>
    results_ <- (if w =? 1 then query_urls self (identifiers self)
                 else query_urls_parallel self w) ;;
    let self' := with_results self results_ in
    dump_as_json self' results_ ;;;
    ret self'
  end.

(** *** Observations used in the statements *)

(** What the fetch of an identifier does in a batch of [self]: [None] when
    the identifier has no cached URL. *)
Definition fetch (self : base_scraper Payload) (identifier : string)
  : option (completion Payload) :=
  match identifiers_urls self !! identifier with
  | Some url => Some (query_url url (__setup__ (silent self)) (options self))
  | None => None
  end.

(** The payload of an identifier whose fetch succeeds. *)
Definition payload_of (self : base_scraper Payload) (identifier : string) : option Payload :=
  match fetch self identifier with
  | Some (Returned p) => Some p
  | _ => None
  end.

Definition is_timeout (self : base_scraper Payload) (identifier : string) : bool :=
  match fetch self identifier with
  | Some (Raised e) => isinstance_Timeout e
  | _ => false
  end.

(** A transport failure that is not a timeout. *)
Definition is_generic_failure (self : base_scraper Payload) (identifier : string) : bool :=
  match fetch self identifier with
  | Some (Raised e) => negb (isinstance_Timeout e) && isinstance_RequestException e
  | _ => false
  end.

Definition count_timeouts (self : base_scraper Payload) (ids : list string) : Z :=
  Z.of_nat (length (filter (fun id => is_timeout self id = true) ids)).

Definition count_generic (self : base_scraper Payload) (ids : list string) : Z :=
  Z.of_nat (length (filter (fun id => is_generic_failure self id = true) ids)).

(** The failures the shared counter counts: both kinds. *)
Definition count_failures (self : base_scraper Payload) (ids : list string) : Z :=
  count_timeouts self ids + count_generic self ids.

(** The URLs queried by a trace of one batch, in order. *)
Fixpoint queries (t : list (event Payload)) : list string :=
  match t with
  | [] => []
  | Query url :: t' => url :: queries t'
  | _ :: t' => queries t'
  end.

End Engine.

(** ** The tabular transform [into_DataFrame]

    The argument is a list of dictionaries from charger id to the
    dictionary of its sub-types; a sub-type maps to a sequence that is
    unpacked into availability, total and timestamp.  The sub-type
    dictionary is an association list in insertion order.  [charger_ids] is
    an attribute the base class reads but never sets; it is a parameter
    here. *)

Definition subtypes : Type := list (string * list pyval).

(** The five column lists, and the local [datestamp_], unbound ([None])
    until the first successful unpacking. *)
Record columns := {
  ids_ : list string;
  types_ : list pyval;
  avails_ : list pyval;
  totals_ : list pyval;
  datestamps_ : list pyval;
  datestamp_ : option pyval }.

Definition no_columns : columns :=
  {| ids_ := []; types_ := []; avails_ := []; totals_ := []; datestamps_ := [];
     datestamp_ := None |}.

(** The call [pd.DataFrame(list(zip(...)), columns=[...])]: the column
    labels and the records it is given.  What pandas makes of the records
    (its inference of column types) is not part of the record. *)
Record DataFrame := {
  df_columns : list string;
  df_rows : list (string * pyval * pyval * pyval * pyval) }.

(** [avail_, total_, datestamp_ = value] *)
Definition unpack3 (value : list pyval) : completion (pyval * pyval * pyval) :=
  match value with
  | [a; t; d] => Returned (a, t, d)
  | _ :: _ :: _ :: _ :: _ =>
    Raised (Exc ValueError "too many values to unpack (expected 3)")
  | _ =>
    Raised (Exc ValueError
      ("not enough values to unpack (expected 3, got " +:+ pretty (length value) +:+ ")"))
  end.

(** [for type_, value in avail_dict[id].items(): ...] *)
Fixpoint rows_of_subtypes (id : string) (items : subtypes) (c : columns)
  : completion columns :=
  match items with
  | [] => Returned c
  | (type_, value) :: rest =>
    match unpack3 value with
    | Raised e => Raised e
    | Returned (avail_, total_, d) =>
      rows_of_subtypes id rest
        {| ids_ := ids_ c ++ [id]; types_ := types_ c ++ [PyStr type_];
           avails_ := avails_ c ++ [avail_]; totals_ := totals_ c ++ [total_];
           datestamps_ := datestamps_ c ++ [d]; datestamp_ := Some d |}
    end
  end.

(** The [except KeyError:] clause: the row of nulls takes the timestamp
    left in [datestamp_] by the last unpacked value. *)
Definition null_row (id : string) (c : columns) : completion columns :=
  match datestamp_ c with
  | Some d =>
    Returned {| ids_ := ids_ c ++ [id]; types_ := types_ c ++ [PyNone];
                avails_ := avails_ c ++ [PyNone]; totals_ := totals_ c ++ [PyNone];
                datestamps_ := datestamps_ c ++ [d]; datestamp_ := Some d |}
  | None =>
    Raised (Exc UnboundLocalError
      "cannot access local variable 'datestamp_' where it is not associated with a value")
  end.

(** [for id in self.charger_ids: try: ... except KeyError: ...] *)
Fixpoint rows_of_ids (charger_ids : list string) (avail_dict : gmap string subtypes)
    (c : columns) : completion columns :=
  match charger_ids with
  | [] => Returned c
  | id :: rest =>
    match
      match avail_dict !! id with
      | Some items => rows_of_subtypes id items c
      | None => null_row id c
      end
    with
    | Raised e => Raised e
    | Returned c' => rows_of_ids rest avail_dict c'
    end
  end.

(** [avail_dict.update(dict_)] for every dictionary of the list. *)
Definition merge_dicts (avail_list_of_dicts : list (gmap string subtypes))
  : gmap string subtypes :=
  foldl (fun avail_dict dict_ => dict_ ∪ avail_dict) ∅ avail_list_of_dicts.

Fixpoint zip5 (a : list string) (b c d e : list pyval)
  : list (string * pyval * pyval * pyval * pyval) :=
  match a, b, c, d, e with
  | x :: a', y :: b', z :: c', u :: d', v :: e' => (x, y, z, u, v) :: zip5 a' b' c' d' e'
  | _, _, _, _, _ => []
  end.

Definition into_DataFrame (charger_ids : list string)
    (avail_list_of_dicts : list (gmap string subtypes)) : completion DataFrame :=
  let avail_dict := merge_dicts avail_list_of_dicts in
  match rows_of_ids charger_ids avail_dict no_columns with
  | Raised e => Raised e
  | Returned c =>
    Returned {| df_columns := ["Id"; "Charger_type"; "Available"; "Total"; "timestamp"];
                df_rows := zip5 (ids_ c) (types_ c) (avails_ c) (totals_ c) (datestamps_ c) |}
  end.

(** ** The subclass [scraper] of [scrape_prices_with_api.py]

    [requests.get] and [response.json] are the two calls of its
    [query_url]; both belong to the [requests] library.  [requests_get] is
    a variable; [response.json] decodes the body with [json_loads], also a
    variable, and raises [requests.exceptions.JSONDecodeError] with the
    decoder's message when the body is not JSON.  Its [__setup__] is
    [pass]. *)

Section RequestsScraper.

Variables Response Payload : Type.
Variable requests_get : string -> gmap string pyval -> completion Response.
Variable json_loads : Response -> string + Payload.

Definition scraper_setup (silent_ : bool) : unit := tt.

(** [response.json()] *)
Definition response_json (response : Response) : completion Payload :=
  match json_loads response with
  | inr result => Returned result
  | inl msg => Raised (Exc JSONDecodeError msg)
  end.

Definition scraper_query_url (url : string) (scraper_tools : unit)
    (options_ : gmap string pyval) : completion Payload :=
  match requests_get url options_ with
  | Raised e => Raised e
  | Returned response => response_json response
  end.

Definition scraper : Scraper Payload unit :=
  {| __setup__ := scraper_setup; query_url := scraper_query_url |}.

(** [scraper.__init__]: [url_re] defaults to a dictionary; the base
    constructor runs, then [self.results = {}] and [__setup__]. *)
Definition scraper_init (keyword_ : pyval) (out_path_ : string) (identifiers_ : list string)
    (url_re_ : option pyval) (silent_ save_json_ : bool) (options_ : option options_bag)
  : option (M Payload (base_scraper Payload)) :=
  match __init__ keyword_ out_path_ identifiers_ (default (PyObject "dict") url_re_)
                 silent_ save_json_ options_ with
  | Some (t, Returned self) =>
    let _ := scraper_setup silent_ in
    Some (t, Returned (with_results self ∅))
  | other => other
  end.

End RequestsScraper.

Arguments response_json {Response Payload} json_loads response.
Arguments scraper {Response Payload} requests_get json_loads.
Arguments scraper_init {Payload} keyword_ out_path_ identifiers_ url_re_ silent_ save_json_
  options_.

(** ** A test double of the transport

    A stand-in for the [requests] library over the host [api.test]: the
    URLs of [t1], [t2], [t3] time out, those of [g1], [g2] fail with a
    connection error, the call for [x1] raises an error that is not a
    request error, and every other URL answers with its own text as body;
    the body of [j1] is not JSON, every other body decodes to a payload.
    The file system of the double writes every dump. *)
Definition demo_requests_get (url : string) (options_ : gmap string pyval)
  : completion string :=
  if bool_decide (url ∈ ["https://api.test/t1"; "https://api.test/t2"; "https://api.test/t3"])
  then Raised (Exc ReadTimeout "read timed out")
  else if bool_decide (url ∈ ["https://api.test/g1"; "https://api.test/g2"])
  then Raised (Exc ConnectionError "connection refused")
  else if bool_decide (url = "https://api.test/x1")
  then Raised (Exc ValueError "malformed payload")
  else Returned url.

Definition demo_json_loads (response : string) : string + string :=
  if bool_decide (response = "https://api.test/j1")
  then inl "Expecting value: line 1 column 1 (char 0)"
  else inr ("payload of " +:+ response).

#[global] Instance demo : Scraper string unit :=
  scraper demo_requests_get demo_json_loads.

#[global] Instance demo_fs : FileSystem string := fun _ _ _ => None.

(** An identifier that ends in a NUL character: ['a\x00']. *)
Definition a_nul : string := String "a" (String "000" EmptyString).

(** The instance the constructor builds for the template
    [https://api.test/{}], the given identifiers and failure budget. *)
Definition demo_scraper (ids : list string) (budget : Z) : base_scraper string :=
  {| url_re := "https://api.test/{}"; identifiers := ids;
     urls := map (fun id => "https://api.test/" +:+ id) ids;
     urls_to_scrape := map (fun id => "https://api.test/" +:+ id) ids;
     identifiers_urls := dict_zip ids (map (fun id => "https://api.test/" +:+ id) ids);
     out_path := "out"; keyword := "demo"; silent := true; save_json := true;
     _sleep := NoSleep; options := ∅; nmaxtimeouts := budget; self_results := ∅ |}.

(** The instance the constructor builds when the options also hold
    [sleep_in_seconds]. *)
Definition demo_sleepy_scraper (ids : list string) (budget : Z) (seconds : Q)
  : base_scraper string :=
  {| url_re := "https://api.test/{}"; identifiers := ids;
     urls := map (fun id => "https://api.test/" +:+ id) ids;
     urls_to_scrape := map (fun id => "https://api.test/" +:+ id) ids;
     identifiers_urls := dict_zip ids (map (fun id => "https://api.test/" +:+ id) ids);
     out_path := "out"; keyword := "demo"; silent := true; save_json := true;
     _sleep := __sleep_func seconds; options := ∅; nmaxtimeouts := budget;
     self_results := ∅ |}.

(** ** Further observations on traces and tables *)

(** The durations of the sleeps of a trace of one batch, in order. *)
Fixpoint sleeps {Payload} (t : list (event Payload)) : list Q :=
  match t with
  | [] => []
  | Sleep seconds :: t' => seconds :: sleeps t'
  | _ :: t' => sleeps t'
  end.



(** The rows the sub-types of one charger stand for: one per sub-type
    whose value has the three fields. *)
Definition subtype_rows (id : string) (items : subtypes)
  : list (string * pyval * pyval * pyval * pyval) :=
  flat_map (fun item : string * list pyval =>
              match item.2 with
              | [a; t; d] => [(id, PyStr item.1, a, t, d)]
              | _ => []
              end) items.

(** The last timestamp of a table. *)
Definition last_timestamp (rows : list (string * pyval * pyval * pyval * pyval))
  : option pyval :=
  match last rows with
  | Some row => Some row.2
  | None => None
  end.

(** * Properties *)

(** ** The effect monad *)

Section MonadLaws.

Context {Payload : Type}.

Lemma bind_ret_l {A B} (a : A) (k : A -> M Payload B) : bind (ret a) k = k a.
Proof. unfold bind, ret. by destruct (k a). Qed.

Lemma bind_ret_r {A} (m : M Payload A) : bind m ret = m.
Proof. destruct m as [t [a|e]]; simpl; [by rewrite app_nil_r | done]. Qed.

Lemma bind_assoc {A B C} (m : M Payload A) (k : A -> M Payload B) (h : B -> M Payload C) :
  bind (bind m k) h = bind m (fun a => bind (k a) h).
Proof.
  destruct m as [t [a|e]]; simpl; [|done].
  destruct (k a) as [t' [b|e]]; simpl; [|done].
  destruct (h b) as [t'' r]. by rewrite app_assoc.
Qed.

Lemma bind_returned {A B} (m : M Payload A) (k : A -> M Payload B) t a t' r :
  m = (t, Returned a) -> k a = (t', r) -> bind m k = (t ++ t', r).
Proof. intros -> Hk. simpl. by rewrite Hk. Qed.

Lemma bind_raised {A B} (m : M Payload A) (k : A -> M Payload B) t e :
  m = (t, Raised e) -> bind m k = (t, Raised e).
Proof. by intros ->. Qed.

(** A bind that returns: both parts returned. *)
Lemma bind_inv_returned {A B} (m : M Payload A) (k : A -> M Payload B) t b :
  bind m k = (t, Returned b) ->
  exists t1 a t2, m = (t1, Returned a) /\ k a = (t2, Returned b) /\ t = t1 ++ t2.
Proof.
  destruct m as [t1 [a|e]]; simpl; [|done].
  destruct (k a) as [t2 r] eqn:Hk. intros [= <- ->]. by exists t1, a, t2.
Qed.

Lemma queries_app (t1 t2 : list (event Payload)) :
  queries (t1 ++ t2) = queries t1 ++ queries t2.
Proof.
  induction t1 as [|ev t1 IH]; [done|].
  destruct ev; simpl; by rewrite ?IH.
Qed.

Lemma elem_of_queries (t : list (event Payload)) url :
  url ∈ queries t <-> Query url ∈ t.
Proof.
  induction t as [|ev t IH]; simpl.
  - split; intros H; inversion H.
  - destruct ev; rewrite ?elem_of_cons, IH; naive_solver.
Qed.

End MonadLaws.

(** ** The sequential batch runner *)

Section BatchRunner.

Context {Payload Tools : Type} {impl : Scraper Payload Tools}.
Variable self : base_scraper Payload.

Local Abbreviation tools := (__setup__ (silent self)).
Local Abbreviation opts := (options self).
Local Abbreviation nmax := (nmaxtimeouts self).
Local Abbreviation loop := (for_loop self tools opts nmax).
Local Abbreviation body := (loop_body self tools opts nmax).
Local Abbreviation sleeps := ((call_sleep (Payload:=Payload) (_sleep self)).1).

Lemma call_sleep_returns : call_sleep (_sleep self) = (sleeps, Returned tt).
Proof. by destruct (_sleep self). Qed.

Lemma queries_sleeps : queries sleeps = [].
Proof. by destruct (_sleep self). Qed.

(** *** One iteration, by the outcome of the fetch *)

Lemma loop_body_no_url id st :
  identifiers_urls self !! id = None ->
  body id st = (sleeps, Raised (Exc KeyError id)).
Proof.
  intros Hu. unfold loop_body. rewrite call_sleep_returns. simpl.
  unfold getitem. rewrite Hu. simpl. by rewrite app_nil_r.
Qed.

Lemma loop_body_success id st url p :
  identifiers_urls self !! id = Some url ->
  query_url url tools opts = Returned p ->
  body id st =
    (sleeps ++ [Query url; Log DEBUG ("scraped " +:+ id)],
     Returned ({| results := <[id := p]> (results st);
                  ntimeouts := ntimeouts st;
                  timeoutted_identifiers := timeoutted_identifiers st |}, Continue)).
Proof.
  intros Hu Hq. unfold loop_body. rewrite call_sleep_returns. simpl.
  unfold getitem. rewrite Hu. simpl. unfold call_query_url. by rewrite Hq.
Qed.

Lemma loop_body_timeout id st url e :
  identifiers_urls self !! id = Some url ->
  query_url url tools opts = Raised e ->
  isinstance_Timeout e = true ->
  body id st =
    (sleeps ++ Query url
       :: Log WARNING ("Connection timeout - server took too long to respond for " +:+ id)
       :: (if ntimeouts st + 1 >? nmax
           then [Log ERROR "reached maximum timeouts"; Log ERROR "===== Full Stop  ====="]
           else []),
     Returned (count_failure st [id],
               if ntimeouts st + 1 >? nmax then Break else Continue)).
Proof.
  intros Hu Hq He. unfold loop_body. rewrite call_sleep_returns. simpl.
  unfold getitem. rewrite Hu. simpl. unfold call_query_url. rewrite Hq. simpl.
  unfold handlers. rewrite He. simpl. by destruct (ntimeouts st + 1 >? nmax).
Qed.

Lemma loop_body_generic id st url e :
  identifiers_urls self !! id = Some url ->
  query_url url tools opts = Raised e ->
  isinstance_Timeout e = false ->
  isinstance_RequestException e = true ->
  body id st =
    (sleeps ++ Query url
       :: Log WARNING ("Request failed: " +:+ exc_msg e +:+ " for " +:+ id)
       :: (if ntimeouts st + 1 >=? nmax
           then [Log ERROR "reached maximum timeouts"; Log ERROR "===== Full Stop  ====="]
           else []),
     Returned (count_failure st [],
               if ntimeouts st + 1 >=? nmax then Break else Continue)).
Proof.
  intros Hu Hq He Hr. unfold loop_body. rewrite call_sleep_returns. simpl.
  unfold getitem. rewrite Hu. simpl. unfold call_query_url. rewrite Hq. simpl.
  unfold handlers. rewrite He, Hr. simpl. by destruct (ntimeouts st + 1 >=? nmax).
Qed.

Lemma loop_body_uncaught id st url e :
  identifiers_urls self !! id = Some url ->
  query_url url tools opts = Raised e ->
  isinstance_RequestException e = false ->
  body id st = (sleeps ++ [Query url], Raised e).
Proof.
  intros Hu Hq Hr. unfold loop_body. rewrite call_sleep_returns. simpl.
  unfold getitem. rewrite Hu. simpl. unfold call_query_url. rewrite Hq. simpl.
  unfold handlers. rewrite Hr.
  assert (isinstance_Timeout e = false) as ->; [|done].
  revert Hr. unfold isinstance_Timeout, isinstance_RequestException.
  by destruct (exc_type e).
Qed.

(** The case analysis of one iteration. *)
Ltac body_cases id st :=
  let url := fresh "url" in let Hu := fresh "Hu" in
  let p := fresh "p" in let e := fresh "e" in let Hq := fresh "Hq" in
  let He := fresh "He" in let Hr := fresh "Hr" in
  destruct (identifiers_urls self !! id) as [url|] eqn:Hu;
  [ destruct (query_url url (__setup__ (silent self)) (options self)) as [p|e] eqn:Hq;
    [ rewrite (loop_body_success id st url p Hu Hq)
    | destruct (isinstance_Timeout e) eqn:He;
      [ rewrite (loop_body_timeout id st url e Hu Hq He)
      | destruct (isinstance_RequestException e) eqn:Hr;
        [ rewrite (loop_body_generic id st url e Hu Hq He Hr)
        | rewrite (loop_body_uncaught id st url e Hu Hq Hr) ] ] ]
  | rewrite (loop_body_no_url id st Hu) ].

(** *** Counting failures *)

Lemma count_timeouts_cons id l :
  count_timeouts self (id :: l) = (if is_timeout self id then 1 else 0) + count_timeouts self l.
Proof.
  unfold count_timeouts. rewrite filter_cons.
  destruct (is_timeout self id); case_decide; simpl; try done; lia.
Qed.

Lemma count_generic_cons id l :
  count_generic self (id :: l)
  = (if is_generic_failure self id then 1 else 0) + count_generic self l.
Proof.
  unfold count_generic. rewrite filter_cons.
  destruct (is_generic_failure self id); case_decide; simpl; try done; lia.
Qed.

Lemma count_timeouts_app l1 l2 :
  count_timeouts self (l1 ++ l2) = count_timeouts self l1 + count_timeouts self l2.
Proof. unfold count_timeouts. rewrite filter_app, length_app. lia. Qed.

Lemma count_generic_app l1 l2 :
  count_generic self (l1 ++ l2) = count_generic self l1 + count_generic self l2.
Proof. unfold count_generic. rewrite filter_app, length_app. lia. Qed.

Lemma count_timeouts_nonneg l : 0 <= count_timeouts self l.
Proof. unfold count_timeouts. lia. Qed.

Lemma count_generic_nonneg l : 0 <= count_generic self l.
Proof. unfold count_generic. lia. Qed.

Lemma timeout_not_generic id :
  is_timeout self id = true -> is_generic_failure self id = false.
Proof.
  unfold is_timeout, is_generic_failure.
  destruct (fetch self id) as [[p|e]|]; try done. by intros ->.
Qed.

(** *** The loop *)

Lemma loop_app pre post st :
  loop (pre ++ post) st
  = (r <- loop pre st ;;
     match r.2 with Continue => loop post r.1 | Break => ret r end).
Proof.
  revert st. induction pre as [|id pre IH]; intros st.
  - simpl. by destruct (loop post st).
  - simpl. destruct (body id st) as [t [[st' c]|e]]; simpl; [|done].
    destruct c; simpl.
    + rewrite IH. destruct (loop pre st') as [t1 [[st1 c1]|e1]]; simpl; [|done].
      destruct c1; simpl.
      * destruct (loop post st1) as [t2 r2]. by rewrite app_assoc.
      * by rewrite !app_nil_r.
    + by rewrite !app_nil_r.
Qed.

(** The prefix is completed and the loop goes on with [post]. *)
Lemma loop_app_continue pre post st t st' :
  loop pre st = (t, Returned (st', Continue)) ->
  loop (pre ++ post) st = (t ++ (loop post st').1, (loop post st').2).
Proof.
  intros H. rewrite loop_app, H. simpl. by destruct (loop post st').
Qed.

(** The loop was left inside the prefix: nothing of [post] runs. *)
Lemma loop_app_break pre post st t st' :
  loop pre st = (t, Returned (st', Break)) ->
  loop (pre ++ post) st = loop pre st.
Proof. intros H. rewrite loop_app, H. simpl. by rewrite app_nil_r. Qed.

Lemma loop_app_raised pre post st t e :
  loop pre st = (t, Raised e) ->
  loop (pre ++ post) st = (t, Raised e).
Proof. intros H. by rewrite loop_app, H. Qed.

(** The one-element loop is the body. *)
Lemma loop_singleton id st : loop [id] st = body id st.
Proof.
  simpl. destruct (body id st) as [t [[st' c]|e]]; simpl; [|done].
  destruct c; simpl; by rewrite app_nil_r.
Qed.

(** When the loop runs through a prefix, the counter has counted exactly
    the failures of both kinds met there. *)
Lemma loop_counter pre st t st' :
  loop pre st = (t, Returned (st', Continue)) ->
  ntimeouts st' = ntimeouts st + count_failures self pre.
Proof.
  revert st t. induction pre as [|id pre IH]; intros st t.
  - intros [= <- <-]. unfold count_failures, count_timeouts, count_generic. simpl. lia.
  - simpl. unfold count_failures. rewrite count_timeouts_cons, count_generic_cons.
    unfold is_timeout, is_generic_failure, fetch.
    body_cases id st; try rewrite Hr; simpl; try done.
    + destruct (loop pre _) as [t1 r1] eqn:Hl. intros [= <- ->].
      apply IH in Hl. simpl in Hl. unfold count_failures in Hl. lia.
    + destruct (ntimeouts st + 1 >? nmax); simpl; [done|].
      destruct (loop pre _) as [t1 r1] eqn:Hl. intros [= <- ->].
      apply IH in Hl. simpl in Hl. unfold count_failures in Hl. lia.
    + destruct (ntimeouts st + 1 >=? nmax); simpl; [done|].
      destruct (loop pre _) as [t1 r1] eqn:Hl. intros [= <- ->].
      apply IH in Hl. simpl in Hl. unfold count_failures in Hl. lia.
Qed.

Lemma loop_cons id rest st :
  loop (id :: rest) st
  = (r <- body id st ;;
     match r.2 with Continue => loop rest r.1 | Break => ret r end).
Proof. done. Qed.

(** An iteration that does not raise made exactly one query, and either
    stored the payload or counted a transport failure. *)
Lemma loop_body_returned id st t1 st1 c1 :
  body id st = (t1, Returned (st1, c1)) ->
  exists url, identifiers_urls self !! id = Some url /\ queries t1 = [url] /\
    ((exists p, query_url url tools opts = Returned p /\
                results st1 = <[id := p]> (results st) /\
                ntimeouts st1 = ntimeouts st /\ c1 = Continue)
     \/ (exists e, query_url url tools opts = Raised e /\
                   isinstance_RequestException e = true /\
                   results st1 = results st /\
                   ntimeouts st1 = ntimeouts st + 1)).
Proof.
  body_cases id st; intros [= <- <- <-]; try done.
  - exists url. split; [done|]. rewrite queries_app, queries_sleeps. split; [done|].
    left. by exists p.
  - exists url. split; [done|]. rewrite queries_app, queries_sleeps. split.
    { simpl. by destruct (ntimeouts st + 1 >? nmax). }
    right. exists e. repeat split; try done.
    revert He. unfold isinstance_Timeout, isinstance_RequestException.
    by destruct (exc_type e).
  - exists url. split; [done|]. rewrite queries_app, queries_sleeps. split.
    { simpl. by destruct (ntimeouts st + 1 >=? nmax). }
    right. by exists e.
Qed.

(** Provenance of the entries: whatever the loop leaves in [results] was
    there before or is the payload of a queried identifier of the list. *)
Lemma loop_results ids st t st' c :
  loop ids st = (t, Returned (st', c)) ->
  forall id p, results st' !! id = Some p ->
    results st !! id = Some p \/
    (id ∈ ids /\ exists url, identifiers_urls self !! id = Some url /\
                   query_url url tools opts = Returned p /\ url ∈ queries t).
Proof.
  revert st t. induction ids as [|id0 ids IH]; intros st t.
  - intros [= <- <- <-] id p Hp. by left.
  - rewrite loop_cons. intros H id p Hp.
    apply bind_inv_returned in H as (t1 & [st1 c1] & t2 & Hb & Hk & ->).
    apply loop_body_returned in Hb as (url & Hu & Hq1 & Hcase).
    assert (results st1 !! id = Some p \/
            (id ∈ ids /\ exists url, identifiers_urls self !! id = Some url /\
                   query_url url tools opts = Returned p /\ url ∈ queries t2)) as Hrest.
    { simpl in Hk. destruct c1.
      - by eapply IH.
      - injection Hk as <- <- <-. by left. }
    rewrite queries_app.
    destruct Hrest as [Hin|(Hin & url' & Hu' & Hq' & Ht')].
    + destruct Hcase as [(p0 & Hq0 & Hr0 & _)|(e & _ & _ & Hr0 & _)].
      * rewrite Hr0 in Hin. destruct (decide (id0 = id)) as [->|Hne].
        -- rewrite lookup_insert_eq in Hin. injection Hin as ->.
           right. split; [by left|]. exists url. repeat split; try done.
           rewrite Hq1. set_solver.
        -- rewrite lookup_insert_ne in Hin by done. by left.
      * rewrite Hr0 in Hin. by left.
    + right. split; [by right|]. exists url'. repeat split; try done. set_solver.
Qed.

(** The loop returns unless an identifier has no cached URL or a fetch
    raises outside the transport's exception classes. *)
Lemma loop_returns ids st :
  (forall id, id ∈ ids -> exists url, identifiers_urls self !! id = Some url /\
     forall e, query_url url tools opts = Raised e -> isinstance_RequestException e = true) ->
  exists t st' c, loop ids st = (t, Returned (st', c)).
Proof.
  revert st. induction ids as [|id ids IH]; intros st Hall.
  - by exists [], st, Continue.
  - destruct (Hall id) as (url & Hu & Hexc); [by left|].
    rewrite loop_cons.
    assert (exists t1 st1 c1, body id st = (t1, Returned (st1, c1))) as (t1 & st1 & c1 & Hb).
    { body_cases id st; try by eauto.
      - rewrite (Hexc e) in Hr; [done|]. congruence.
      }
    rewrite Hb. simpl. destruct c1; simpl.
    + destruct (IH st1) as (t2 & st2 & c2 & Hl).
      { intros id' Hin. apply Hall. by right. }
      rewrite Hl. by exists (t1 ++ t2), st2, c2.
    + by exists (t1 ++ []), st1, Break.
Qed.

(** When every fetch of the list succeeds, the loop runs through and
    [results] holds the payload of every identifier of the list. *)
Lemma loop_all_success ids st :
  (forall id, id ∈ ids -> is_Some (payload_of self id)) ->
  exists t st', loop ids st = (t, Returned (st', Continue)) /\
    forall k, results st' !! k
              = if decide (k ∈ ids) then payload_of self k else results st !! k.
Proof.
  revert st. induction ids as [|id ids IH]; intros st Hall.
  - exists [], st. split; [done|]. intros k. case_decide; [|done]. by apply elem_of_nil in H.
  - destruct (Hall id) as [p Hp]; [by left|].
    unfold payload_of, fetch in Hp.
    destruct (identifiers_urls self !! id) as [url|] eqn:Hu; [|done].
    destruct (query_url url tools opts) as [p'|e] eqn:Hq; [|done].
    injection Hp as ->.
    rewrite loop_cons, (loop_body_success id st url p Hu Hq). simpl.
    destruct (IH {| results := <[id:=p]> (results st); ntimeouts := ntimeouts st;
                    timeoutted_identifiers := timeoutted_identifiers st |})
      as (t2 & st2 & Hl & Hres).
    { intros id' Hin. apply Hall. by right. }
    rewrite Hl. eexists _, st2. split; [done|].
    intros k. rewrite Hres. simpl.
    destruct (decide (k = id)) as [->|Hne].
    + rewrite lookup_insert_eq.
      assert (payload_of self id = Some p) as ->.
      { unfold payload_of, fetch. by rewrite Hu, Hq. }
      rewrite (decide_True (P := id ∈ id :: ids)) by (by left).
      by case_decide.
    + rewrite lookup_insert_ne by done.
      destruct (decide (k ∈ ids)).
      * rewrite decide_True; [done | by right].
      * rewrite decide_False; [done|]. rewrite elem_of_cons. naive_solver.
Qed.

Lemma fetch_inv id r :
  fetch self id = Some r ->
  exists url, identifiers_urls self !! id = Some url /\ query_url url tools opts = r.
Proof.
  unfold fetch. destruct (identifiers_urls self !! id) as [url|]; [|done].
  intros [= <-]. by exists url.
Qed.

(** From empty [results], an entry is the payload of its identifier, which
    is in the list and was queried. *)
Lemma loop_results_init ids t st c id p :
  loop ids init_locals = (t, Returned (st, c)) ->
  results st !! id = Some p ->
  id ∈ ids /\ fetch self id = Some (Returned p) /\
  exists url, identifiers_urls self !! id = Some url /\ Query url ∈ t.
Proof.
  intros Hl Hp. destruct (loop_results _ _ _ _ _ Hl id p Hp) as [He|(Hin & url & Hu & Hq & Ht)].
  - simpl in He. by rewrite lookup_empty in He.
  - split; [done|]. split.
    + unfold fetch. by rewrite Hu, Hq.
    + exists url. split; [done|]. by apply elem_of_queries.
Qed.

Lemma loop_results_failed ids t st c id e :
  loop ids init_locals = (t, Returned (st, c)) ->
  fetch self id = Some (Raised e) ->
  results st !! id = None.
Proof.
  intros Hl Hf. destruct (results st !! id) as [p|] eqn:Hp; [|done].
  destruct (loop_results_init _ _ _ _ _ _ Hl Hp) as (_ & Hf' & _). congruence.
Qed.

Lemma loop_results_outside ids t st c id :
  loop ids init_locals = (t, Returned (st, c)) ->
  id ∉ ids ->
  results st !! id = None.
Proof.
  intros Hl Hn. destruct (results st !! id) as [p|] eqn:Hp; [|done].
  by destruct (loop_results_init _ _ _ _ _ _ Hl Hp) as (Hin & _).
Qed.

Lemma query_urls_of_loop ids t st c :
  loop ids init_locals = (t, Returned (st, c)) ->
  query_urls self ids = (t, Returned (results st)).
Proof.
  intros Hl. unfold query_urls, query_loop. rewrite Hl. simpl. by rewrite app_nil_r.
Qed.

(** [query_urls] returns a map whenever every identifier of the batch has a
    cached URL and no fetch raises outside the transport's classes. *)
Lemma query_urls_returns ids :
  (forall id, id ∈ ids -> exists url, identifiers_urls self !! id = Some url /\
     forall e, query_url url tools opts = Raised e -> isinstance_RequestException e = true) ->
  exists t m, query_urls self ids = (t, Returned m).
Proof.
  intros Hall. destruct (loop_returns ids init_locals Hall) as (t & st & c & Hl).
  exists t, (results st). by eapply query_urls_of_loop.
Qed.

Lemma query_urls_returned ids t m :
  query_urls self ids = (t, Returned m) ->
  exists st c, loop ids init_locals = (t, Returned (st, c)) /\ m = results st.
Proof.
  unfold query_urls, query_loop. intros H.
  apply bind_inv_returned in H as (t1 & [st c] & t2 & Hl & [= <- <-] & ->).
  exists st, c. by rewrite app_nil_r.
Qed.

(** The step of the loop at a position it reaches, when the fetch there
    raises a transport exception: the counter after the step is the number
    of failures of both kinds up to and including the position, the step
    leaves [results] as it was, and the comparison decides whether the loop
    goes on. *)
Lemma failure_step ids i id e t st :
  ids !! i = Some id ->
  fetch self id = Some (Raised e) ->
  isinstance_RequestException e = true ->
  loop (take i ids) init_locals = (t, Returned (st, Continue)) ->
  let k := count_failures self (take (S i) ids) in
  let halt := if isinstance_Timeout e then k >? nmax else k >=? nmax in
  ntimeouts st + 1 = k /\
  exists t',
    loop (take (S i) ids) init_locals
    = (t ++ t', Returned (count_failure st (if isinstance_Timeout e then [id] else []),
                          if halt then Break else Continue)) /\
    Log WARNING (if isinstance_Timeout e
                 then "Connection timeout - server took too long to respond for " +:+ id
                 else "Request failed: " +:+ exc_msg e +:+ " for " +:+ id) ∈ t'.
Proof.
  intros Hi Hf Hr Hreach k halt.
  destruct (fetch_inv _ _ Hf) as (url & Hu & Hq).
  assert (ntimeouts st + 1 = k) as Hk.
  { subst k. rewrite (take_S_r _ _ _ Hi). unfold count_failures.
    rewrite count_timeouts_app, count_generic_app, count_timeouts_cons, count_generic_cons.
    apply loop_counter in Hreach. simpl in Hreach. unfold count_failures in Hreach.
    unfold is_timeout, is_generic_failure. rewrite Hf, Hr.
    change (count_timeouts self []) with 0. change (count_generic self []) with 0.
    destruct (isinstance_Timeout e); cbn [negb andb]; lia. }
  split; [done|].
  rewrite (take_S_r _ _ _ Hi), (loop_app_continue _ _ _ _ _ Hreach), loop_singleton.
  subst halt. rewrite <- Hk.
  destruct (isinstance_Timeout e) eqn:He.
  - rewrite (loop_body_timeout id st url e Hu Hq He). simpl.
    eexists. split; [done|]. rewrite elem_of_app. right. set_solver.
  - rewrite (loop_body_generic id st url e Hu Hq He Hr). simpl.
    eexists. split; [done|]. rewrite elem_of_app. right. set_solver.
Qed.

(** Once the loop is left at position [i], the batch is the batch of the
    identifiers up to [i]: nothing behind is attempted. *)
Lemma halt_truncates ids i t st :
  loop (take (S i) ids) init_locals = (t, Returned (st, Break)) ->
  query_urls self ids = query_urls self (take (S i) ids) /\
  query_urls self ids = (t, Returned (results st)).
Proof.
  intros Hl. assert (loop ids init_locals = loop (take (S i) ids) init_locals) as Heq.
  { rewrite <- (take_drop (S i) ids) at 1. by eapply loop_app_break. }
  split.
  - unfold query_urls, query_loop. by rewrite Heq.
  - apply (query_urls_of_loop _ _ _ Break). by rewrite Heq.
Qed.

(** *** Claims about the batch runner *)

(** C3 (as amended).  Let the batch reach position [i] of a shard and let
    the fetch there time out.  The counter after this step, [k], is the
    number of failures of BOTH kinds among the identifiers up to and
    including [i]; it is at least the number of timeouts there, and equal to
    it when no generic failure came before.  If [k <= nmaxtimeouts] the
    loop goes on and the identifier is not in [results].  If
    [nmaxtimeouts < k] (in particular at the [(nmaxtimeouts+1)]-th timeout)
    the shard halts: the whole batch is the batch of the identifiers up to
    [i], so nothing behind is attempted, the identifier is absent from the
    returned map, and so is every identifier that occurs only behind it. *)
Theorem timeout_budget ids i id e t st :
  ids !! i = Some id ->
  fetch self id = Some (Raised e) ->
  isinstance_Timeout e = true ->
  query_loop self (take i ids) = (t, Returned (st, Continue)) ->
  let k := count_failures self (take (S i) ids) in
  ntimeouts st + 1 = k /\
  count_timeouts self (take (S i) ids) <= k /\
  (count_generic self (take i ids) = 0 -> k = count_timeouts self (take (S i) ids)) /\
  (k <= nmaxtimeouts self ->
     exists t' st', query_loop self (take (S i) ids) = (t', Returned (st', Continue)) /\
                    results st' = results st /\ results st' !! id = None) /\
  (nmaxtimeouts self < k ->
     exists t', query_urls self ids = (t', Returned (results st)) /\
                query_urls self ids = query_urls self (take (S i) ids) /\
                results st !! id = None /\
                forall id', id' ∈ drop (S i) ids -> id' ∉ take i ids ->
                            results st !! id' = None).
Proof.
  intros Hi Hf He Hreach k. unfold query_loop in *.
  assert (isinstance_RequestException e = true) as Hr.
  { revert He. unfold isinstance_Timeout, isinstance_RequestException.
    by destruct (exc_type e). }
  destruct (failure_step ids i id e t st Hi Hf Hr Hreach) as (Hk & t' & Hstep & _).
  fold k in Hk, Hstep. rewrite He in Hstep.
  assert (results st !! id = None) as Hid by (by eapply loop_results_failed).
  split; [done|]. split.
  { subst k. unfold count_failures. pose proof (count_generic_nonneg (take (S i) ids)). lia. }
  split.
  { intros Hg. subst k. unfold count_failures.
    rewrite (take_S_r _ _ _ Hi), count_generic_app, count_generic_cons, Hg.
    assert (is_generic_failure self id = false) as ->.
    { apply timeout_not_generic. unfold is_timeout. by rewrite Hf. }
    change (count_generic self []) with 0. lia. }
  split.
  - intros Hle. assert ((k >? nmax) = false) as Hgt by lia. rewrite Hgt in Hstep.
    by exists (t ++ t'), (count_failure st [id]).
  - intros Hlt. assert ((k >? nmax) = true) as Hgt by lia. rewrite Hgt in Hstep.
    destruct (halt_truncates ids i _ _ Hstep) as [Heq Hres].
    exists (t ++ t'). repeat split; try done.
    intros id' _ Hnot. by eapply loop_results_outside.
Qed.

(** C4.  Let the batch reach position [i] of a shard and let the fetch
    there fail with a transport error that is not a timeout.  The failure
    increments the one counter that timeouts increment too: after the step
    it is [k], the number of failures of both kinds up to and including
    [i], at least the number of generic failures there.  The shard halts
    exactly when [k >= nmaxtimeouts]: then nothing behind [i] is attempted
    and identifiers occurring only behind it are absent; so the
    [nmaxtimeouts]-th generic failure halts.  A timeout that brings the
    counter to [nmaxtimeouts] does not halt: the generic case stops one
    failure earlier. *)
Theorem generic_failure_budget ids i id e t st :
  ids !! i = Some id ->
  fetch self id = Some (Raised e) ->
  isinstance_Timeout e = false ->
  isinstance_RequestException e = true ->
  query_loop self (take i ids) = (t, Returned (st, Continue)) ->
  let k := count_failures self (take (S i) ids) in
  let halts :=
    exists t', query_urls self ids = (t', Returned (results st)) /\
               query_urls self ids = query_urls self (take (S i) ids) /\
               results st !! id = None /\
               forall id', id' ∈ drop (S i) ids -> id' ∉ take i ids ->
                           results st !! id' = None in
  ntimeouts st + 1 = k /\
  count_generic self (take (S i) ids) <= k /\
  (nmaxtimeouts self <= k -> halts) /\
  (count_generic self (take (S i) ids) = nmaxtimeouts self -> halts) /\
  (k < nmaxtimeouts self ->
     exists t' st', query_loop self (take (S i) ids) = (t', Returned (st', Continue)) /\
                    results st' = results st) /\
  (forall ids' j id' e' t' st',
     ids' !! j = Some id' ->
     fetch self id' = Some (Raised e') ->
     isinstance_Timeout e' = true ->
     query_loop self (take j ids') = (t', Returned (st', Continue)) ->
     count_failures self (take (S j) ids') = nmaxtimeouts self ->
     exists t'' st'', query_loop self (take (S j) ids') = (t'', Returned (st'', Continue))).
Proof.
  intros Hi Hf He Hr Hreach k halts. unfold query_loop in *.
  destruct (failure_step ids i id e t st Hi Hf Hr Hreach) as (Hk & t' & Hstep & _).
  fold k in Hk, Hstep. rewrite He in Hstep.
  assert (results st !! id = None) as Hid by (by eapply loop_results_failed).
  assert (count_generic self (take (S i) ids) <= k) as Hge.
  { subst k. unfold count_failures. pose proof (count_timeouts_nonneg (take (S i) ids)). lia. }
  assert (nmax <= k -> halts) as Hhalt.
  { intros Hle. assert ((k >=? nmax) = true) as Hgt by lia. rewrite Hgt in Hstep.
    destruct (halt_truncates ids i _ _ Hstep) as [Heq Hres].
    exists (t ++ t'). repeat split; try done.
    intros id' _ Hnot. by eapply loop_results_outside. }
  split; [done|]. split; [done|]. split; [done|]. split; [intros Hn; apply Hhalt; lia|].
  split.
  - intros Hlt. assert ((k >=? nmax) = false) as Hgt by lia. rewrite Hgt in Hstep.
    by exists (t ++ t'), (count_failure st []).
  - intros ids' j id' e' t1 st1 Hj Hf' He' Hreach' Hcount.
    assert (isinstance_RequestException e' = true) as Hr'.
    { revert He'. unfold isinstance_Timeout, isinstance_RequestException.
      by destruct (exc_type e'). }
    destruct (failure_step ids' j id' e' t1 st1 Hj Hf' Hr' Hreach') as (_ & t2 & Hstep' & _).
    rewrite He', Hcount in Hstep'.
    assert ((nmax >? nmax) = false) as Hgt by lia. rewrite Hgt in Hstep'.
    by eexists _, _.
Qed.

(** C5.  For distinct identifiers whose fetches all succeed, the batch
    runner returns a map with exactly one entry per identifier, whose value
    is the payload the fetch returned. *)
Theorem all_success_result_map ids :
  NoDup ids ->
  (forall id, id ∈ ids -> exists p, fetch self id = Some (Returned p)) ->
  exists t m,
    query_urls self ids = (t, Returned m) /\
    size m = length ids /\
    dom m = list_to_set ids /\
    forall id p, id ∈ ids -> fetch self id = Some (Returned p) -> m !! id = Some p.
Proof.
  intros Hnd Hall.
  destruct (loop_all_success ids init_locals) as (t & st & Hl & Hres).
  { intros id Hin. destruct (Hall id Hin) as [p Hp]. unfold payload_of. by rewrite Hp. }
  exists t, (results st). split; [by eapply query_urls_of_loop|].
  assert (dom (results st) = list_to_set ids) as Hdom.
  { apply set_eq. intros k. rewrite elem_of_dom, elem_of_list_to_set, Hres.
    case_decide as Hk.
    - destruct (Hall k Hk) as [p Hp]. unfold payload_of. rewrite Hp. naive_solver.
    - simpl. rewrite lookup_empty. split; [by intros [? ?] | done]. }
  split; [|split; [done|]].
  - rewrite <- size_dom, Hdom. by apply size_list_to_set.
  - intros id p Hin Hp. rewrite Hres, decide_True by done. unfold payload_of. by rewrite Hp.
Qed.

(** C6.  The map a batch run returns has an entry only for an identifier
    of the input whose fetch was made and succeeded, and the entry is the
    payload of that fetch.  Identifiers outside the input, identifiers
    whose fetch failed and identifiers that were never queried have no
    entry. *)
Theorem result_map_only_successes ids t m :
  query_urls self ids = (t, Returned m) ->
  forall id,
    (forall p, m !! id = Some p ->
       id ∈ ids /\ fetch self id = Some (Returned p) /\
       exists url, identifiers_urls self !! id = Some url /\ Query url ∈ t) /\
    (id ∉ ids -> m !! id = None) /\
    ((forall p, fetch self id <> Some (Returned p)) -> m !! id = None) /\
    (forall url, identifiers_urls self !! id = Some url -> Query url ∉ t -> m !! id = None).
Proof.
  intros Hq id. apply query_urls_returned in Hq as (st & c & Hl & ->).
  assert (forall p, results st !! id = Some p ->
       id ∈ ids /\ fetch self id = Some (Returned p) /\
       exists url, identifiers_urls self !! id = Some url /\ Query url ∈ t) as Hprov.
  { intros p Hp. by eapply loop_results_init. }
  split; [done|]. repeat split.
  - intros Hn. destruct (results st !! id) as [p|] eqn:Hp; [|done].
    by destruct (Hprov p eq_refl) as (Hin & _).
  - intros Hn. destruct (results st !! id) as [p|] eqn:Hp; [|done].
    destruct (Hprov p eq_refl) as (_ & Hf & _). by destruct (Hn p).
  - intros url Hu Hn. destruct (results st !! id) as [p|] eqn:Hp; [|done].
    destruct (Hprov p eq_refl) as (_ & _ & url' & Hu' & Hin). congruence.
Qed.

End BatchRunner.

(** ** Partitioning *)

Section Partition.

Context {A : Type} {array_of : ArrayItem A}.
Implicit Types (l : list A) (szs : list nat).

(** The slices between the running sums of [szs], started at offset [a]. *)
Local Abbreviation slices l a szs :=
  (map (fun i => slice l ((a :: cumsum_from a szs) !!! i) ((a :: cumsum_from a szs) !!! (S i)))
       (seq 0 (length szs))).

Lemma slices_cons l a s szs :
  slices l a (s :: szs) = take s (drop a l) :: slices l (a + s)%nat szs.
Proof.
  cbn [length seq map]. f_equal.
  - unfold slice. cbn. f_equal. lia.
  - rewrite <- fmap_S_seq. rewrite <- list_fmap_compose. by apply list_fmap_ext.
Qed.

Lemma concat_slices l a szs :
  concat (slices l a szs) = take (sum_list szs) (drop a l).
Proof.
  revert a. induction szs as [|s szs IH]; intros a; [done|].
  rewrite slices_cons. cbn [concat]. rewrite IH.
  replace (drop (a + s) l) with (drop s (drop a l)) by (by rewrite drop_drop).
  by rewrite take_take_drop.
Qed.

Lemma length_slices l a szs :
  (a + sum_list szs <= length l)%nat ->
  map length (slices l a szs) = szs.
Proof.
  revert a. induction szs as [|s szs IH]; intros a Hle; [done|].
  rewrite slices_cons. cbn [map]. cbn in Hle. f_equal.
  - rewrite length_take, length_drop. lia.
  - apply IH. lia.
Qed.

Lemma sum_section_sizes N W :
  (0 < W)%nat ->
  sum_list (replicate (N mod W) (N / W + 1)%nat ++ replicate (W - N mod W) (N / W)%nat) = N.
Proof.
  intros HW. rewrite sum_list_with_app, !sum_list_replicate.
  pose proof (Nat.mod_upper_bound N W ltac:(lia)).
  pose proof (Nat.div_mod_eq N W). nia.
Qed.

Lemma array_split_unfold l (W : Z) :
  0 < W ->
  array_split l W
  = Returned (slices (map array_item l) 0%nat
                     (replicate (length l mod Z.to_nat W) (length l / Z.to_nat W + 1)%nat
                              ++ replicate (Z.to_nat W - length l mod Z.to_nat W)
                                           (length l / Z.to_nat W)%nat)).
Proof.
  intros HW. unfold array_split. rewrite (proj2 (Z.leb_gt W 0)) by lia.
  f_equal. unfold cumsum, section_sizes. cbn [cumsum_from].
  rewrite length_app, !length_replicate.
  pose proof (Nat.mod_upper_bound (length l) (Z.to_nat W) ltac:(lia)).
  replace (length l mod Z.to_nat W + (Z.to_nat W - length l mod Z.to_nat W))%nat
    with (Z.to_nat W) by lia.
  done.
Qed.

(** What the partitioning step returns for [1 <= W]: [W] shards whose
    concatenation in shard order is the array numpy made of the list, and
    whose sizes differ by at most one. *)
Lemma array_split_shards (ids : list A) (W : Z) :
  1 <= W ->
  exists shards,
    array_split ids W = Returned shards /\
    length shards = Z.to_nat W /\
    concat shards = map array_item ids /\
    forall s1 s2, s1 ∈ shards -> s2 ∈ shards -> (length s1 <= length s2 + 1)%nat.
Proof.
  intros HW. rewrite array_split_unfold by lia.
  set (n := Z.to_nat W). set (N := length ids).
  set (szs := replicate (N mod n) (N / n + 1)%nat ++ replicate (n - N mod n) (N / n)%nat).
  assert (0 < n)%nat as Hn by (subst n; lia).
  assert (sum_list szs = N) as Hsum by (by apply sum_section_sizes).
  eexists. split; [done|]. split; [|split].
  - rewrite length_map, length_seq. subst szs. rewrite length_app, !length_replicate.
    pose proof (Nat.mod_upper_bound N n ltac:(lia)). lia.
  - rewrite concat_slices, Hsum. cbn [drop]. apply take_ge. rewrite length_map. subst N. lia.
  - assert (forall s, s ∈ slices (map array_item ids) 0%nat szs ->
                      length s = (N / n)%nat \/ length s = (N / n + 1)%nat)
      as Hlen.
    { intros s Hs. apply (list_elem_of_fmap_2 length) in Hs.
      rewrite length_slices in Hs by (rewrite Hsum, length_map; subst N; lia).
      subst szs. rewrite elem_of_app, !elem_of_replicate in Hs. naive_solver. }
    intros s1 s2 H1 H2. destruct (Hlen s1 H1), (Hlen s2 H2); lia.
Qed.

End Partition.

(** A string that does not end in NUL is the string numpy returns for it. *)
Lemma np_str_id (s : string) : nul_terminated s = false -> np_str s = s.
Proof.
  induction s as [|c s IH]; [done|]. destruct s as [|c' s'].
  - cbn. by intros ->.
  - intros Hn. change (nul_terminated (String c (String c' s')))
      with (nul_terminated (String c' s')) in Hn.
    change (np_str (String c (String c' s')))
      with (match np_str (String c' s') with
            | EmptyString => if Ascii.eqb c "000" then EmptyString else String c EmptyString
            | rest => String c rest
            end).
    by rewrite (IH Hn).
Qed.

Lemma map_np_str_id (ids : list string) :
  Forall (fun id => nul_terminated id = false) ids -> map np_str ids = ids.
Proof.
  induction 1 as [|id ids Hid _ IH]; [done|]. cbn [map]. by rewrite (np_str_id id Hid), IH.
Qed.


(** ** Workers, merge and the entry point *)

Section EntryPoint.

Context {Payload Tools : Type} {impl : Scraper Payload Tools} {fs : FileSystem Payload}.
Variable self : base_scraper Payload.

Lemma collect_returned {A B} (f : A -> M Payload B) inputs outs :
  Forall2 (fun a b => exists t, f a = (t, Returned b)) inputs outs ->
  collect (map f inputs) = Returned outs.
Proof.
  induction 1 as [|a b inputs outs [t Ha] _ IH]; [done|].
  cbn [map collect]. by rewrite Ha, IH.
Qed.





(** [dump_as_json] raises exactly when [save_json] is set and the file
    system refuses the dump; it produces no event then. *)
Lemma dump_as_json_cases (o : base_scraper Payload) m :
  match (dump_as_json o m).2 with
  | Returned _ =>
    save_json o = false \/ json_dump (out_path o) (keyword o) m = None
  | Raised e =>
    save_json o = true /\ json_dump (out_path o) (keyword o) m = Some e /\
    (dump_as_json o m).1 = []
  end.
Proof.
  unfold dump_as_json. destruct (save_json o); [|by left].
  destruct (json_dump (out_path o) (keyword o) m) as [e|]; [done | by right].
Qed.


Lemma run_raised w t e :
  (if w =? 1 then query_urls self (identifiers self) else query_urls_parallel self w)
  = (t, Raised e) ->
  run self (PyInt w) = (t, Raised e).
Proof. intros H. unfold run. cbn [int_value]. by rewrite H. Qed.



(** The values [run] accepts are the instances of [int]. *)
Lemma int_value_None v : isinstance_int v = false -> int_value v = None.
Proof. by destruct v. Qed.

(** C8.  [run] raises [ValueError] at once, with no event at all (hence
    before any fetch), for every value that is not an integer, and also for
    every integer that is not positive (there the error comes from the
    partitioning step). *)
Theorem run_rejects_bad_worker_count :
  (forall v, isinstance_int v = false ->
     run self v = ([], Raised (Exc ValueError ("max_worker is of type " +:+ type_repr v
                                               +:+ ". Should be Int.")))) /\
  (forall v w, int_value v = Some w -> w <= 0 ->
     run self v = ([], Raised (Exc ValueError "number sections must be larger than 0."))).
Proof.
  split.
  - intros v Hv. unfold run. by rewrite (int_value_None v Hv).
  - intros v w Hv Hw. unfold run. rewrite Hv.
    rewrite (proj2 (Z.eqb_neq w 1)) by lia.
    unfold query_urls_parallel, array_split. by rewrite (proj2 (Z.leb_le w 0)) by lia.
Qed.

End EntryPoint.



(** ** The constructor *)

Section Constructor.

Context {Payload : Type}.

Lemma format_chars_braceless cs arg n :
  Forall (fun c => c <> "{"%char /\ c <> "}"%char) cs ->
  format_chars cs arg n = Some (Returned (string_of_list_ascii cs)).
Proof.
  induction 1 as [|c cs [H1 H2] _ IH]; [done|].
  cbn [format_chars string_of_list_ascii].
  rewrite (proj2 (Ascii.eqb_neq c "{") H1), (proj2 (Ascii.eqb_neq c "}") H2), IH.
  done.
Qed.

Lemma count_slots_braceless cs :
  Forall (fun c => c <> "{"%char /\ c <> "}"%char) cs -> count_slots cs = 0%nat.
Proof.
  induction 1 as [|c cs [H1 H2] Hcs IH]; [done|].
  cbn [count_slots]. destruct cs as [|c2 cs]; [done|].
  by rewrite (proj2 (Ascii.eqb_neq c "{") H1), (proj2 (Ascii.eqb_neq c "}") H2).
Qed.




End Constructor.

(** ** The tabular transform *)

(** With an identifier missing from the merged dictionary before any value
    was unpacked, the [except] clause reads the unbound [datestamp_]. *)
Lemma into_DataFrame_first_missing id rest avail_list_of_dicts :
  merge_dicts avail_list_of_dicts !! id = None ->
  into_DataFrame (id :: rest) avail_list_of_dicts
  = Raised (Exc UnboundLocalError
      "cannot access local variable 'datestamp_' where it is not associated with a value").
Proof. intros H. unfold into_DataFrame. cbn [rows_of_ids]. by rewrite H. Qed.

(** C10 (the code at the failing input).  For the identifier list [["a"]]
    and an empty merged map the transform raises instead of returning the
    table with one null-filled row. *)
Theorem into_DataFrame_missing_identifier_raises :
  into_DataFrame ["a"] [∅]
  = Raised (Exc UnboundLocalError
      "cannot access local variable 'datestamp_' where it is not associated with a value").
Proof. by apply into_DataFrame_first_missing. Qed.

(** Where the transform returns: one row per sub-type of a present
    identifier, and for a missing identifier behind it a row of nulls that
    carries the timestamp of the row before. *)
Example into_DataFrame_rows :
  into_DataFrame ["a"; "b"]
    [ {[ "a" := [("AC", [PyInt 1; PyInt 2; PyStr "12:00"]);
                 ("DC", [PyInt 0; PyInt 4; PyStr "12:01"])] ]} ]
  = Returned
      {| df_columns := ["Id"; "Charger_type"; "Available"; "Total"; "timestamp"];
         df_rows := [ ("a", PyStr "AC", PyInt 1, PyInt 2, PyStr "12:00");
                      ("a", PyStr "DC", PyInt 0, PyInt 4, PyStr "12:01");
                      ("b", PyNone, PyNone, PyNone, PyStr "12:01") ] |}.
Proof. vm_compute. reflexivity. Qed.

(** ** The claims at concrete inputs *)

Example demo_scraper_constructed :
  __init__ (PyStr "demo") "out" ["s1"; "t1"; "g1"] (PyStr "https://api.test/{}") true true
           (Some {| opt_sleep_in_seconds := None; opt_nmaxtimeouts := Some 2;
                    opt_kwargs := ∅ |})
  = Some ([], Returned (demo_scraper ["s1"; "t1"; "g1"] 2)).
Proof. vm_compute. reflexivity. Qed.



Example array_split_five_by_two :
  array_split ["a"; "b"; "c"; "d"; "e"] 2 = Returned [["a"; "b"; "c"]; ["d"; "e"]].
Proof. reflexivity. Qed.



Example sequential_batch_keeps_nul_identifier :
  exists t m,
    query_urls (demo_scraper [a_nul; "b"] 10) [a_nul; "b"] = (t, Returned m) /\
    dom m = {[ a_nul; "b" ]}.
Proof. eexists _, _. split; [reflexivity|]. by vm_compute. Qed.

(** C3 (amended) at budget 1: the second timeout of the shard halts it. *)
Lemma timeout_budget_witness :
  exists t st,
    ["s1"; "t1"; "t2"; "s2"] !! 2%nat = Some "t2" /\
    fetch (demo_scraper ["s1"; "t1"; "t2"; "s2"] 1) "t2"
      = Some (Raised (Exc ReadTimeout "read timed out")) /\
    isinstance_Timeout (Exc ReadTimeout "read timed out") = true /\
    query_loop (demo_scraper ["s1"; "t1"; "t2"; "s2"] 1) (take 2 ["s1"; "t1"; "t2"; "s2"])
      = (t, Returned (st, Continue)) /\
    ntimeouts st + 1
      = count_failures (demo_scraper ["s1"; "t1"; "t2"; "s2"] 1)
                       (take 3 ["s1"; "t1"; "t2"; "s2"]) /\
    query_urls (demo_scraper ["s1"; "t1"; "t2"; "s2"] 1) ["s1"; "t1"; "t2"; "s2"]
      = query_urls (demo_scraper ["s1"; "t1"; "t2"; "s2"] 1) (take 3 ["s1"; "t1"; "t2"; "s2"]).
Proof.
  eexists _, _.
  assert (["s1"; "t1"; "t2"; "s2"] !! 2%nat = Some "t2") as Hi by reflexivity.
  assert (fetch (demo_scraper ["s1"; "t1"; "t2"; "s2"] 1) "t2"
          = Some (Raised (Exc ReadTimeout "read timed out"))) as Hf by reflexivity.
  assert (isinstance_Timeout (Exc ReadTimeout "read timed out") = true) as He by reflexivity.
  split; [exact Hi|]. split; [exact Hf|]. split; [exact He|].
  split; [reflexivity|].
  destruct (timeout_budget (demo_scraper ["s1"; "t1"; "t2"; "s2"] 1)
              ["s1"; "t1"; "t2"; "s2"] 2 "t2" _ _ _ Hi Hf He eq_refl)
    as (Hk & _ & _ & _ & Hhalt).
  split; [exact Hk|].
  destruct Hhalt as (t' & _ & Heq & _); [by vm_compute|]. exact Heq.
Defined.

(** C3 as stated fails: with budget 2 and a generic failure earlier in the
    shard, the second timeout is among the first [nmaxtimeouts] timeouts
    and is reached, yet the loop does not go on behind it. *)
Lemma timeout_budget_counterexample :
  ~ (forall i id,
       ["g1"; "t1"; "t2"; "s1"] !! i = Some id ->
       is_timeout (demo_scraper ["g1"; "t1"; "t2"; "s1"] 2) id = true ->
       (exists t st,
          query_loop (demo_scraper ["g1"; "t1"; "t2"; "s1"] 2) (take i ["g1"; "t1"; "t2"; "s1"])
          = (t, Returned (st, Continue))) ->
       count_timeouts (demo_scraper ["g1"; "t1"; "t2"; "s1"] 2)
                      (take (S i) ["g1"; "t1"; "t2"; "s1"])
         <= nmaxtimeouts (demo_scraper ["g1"; "t1"; "t2"; "s1"] 2) ->
       exists t st,
         query_loop (demo_scraper ["g1"; "t1"; "t2"; "s1"] 2)
                    (take (S i) ["g1"; "t1"; "t2"; "s1"])
         = (t, Returned (st, Continue))).
Proof.
  intros H.
  destruct (H 2%nat "t2" eq_refl eq_refl) as (t & st & Heq).
  - eexists _, _. reflexivity.
  - by vm_compute.
  - vm_compute in Heq. discriminate Heq.
Qed.

(** What the batch of that shard does: three queries, no entry. *)
Example second_timeout_halts_mixed_shard :
  exists t,
    query_urls (demo_scraper ["g1"; "t1"; "t2"; "s1"] 2) ["g1"; "t1"; "t2"; "s1"]
    = (t, Returned ∅) /\
    queries t = ["https://api.test/g1"; "https://api.test/t1"; "https://api.test/t2"].
Proof. eexists. split; vm_compute; reflexivity. Qed.

(** C4 at budget 2: the second failure, a generic one, halts the shard. *)
Lemma generic_failure_budget_witness :
  exists t st,
    ["g1"; "s1"; "g2"; "s2"] !! 2%nat = Some "g2" /\
    fetch (demo_scraper ["g1"; "s1"; "g2"; "s2"] 2) "g2"
      = Some (Raised (Exc ConnectionError "connection refused")) /\
    isinstance_Timeout (Exc ConnectionError "connection refused") = false /\
    isinstance_RequestException (Exc ConnectionError "connection refused") = true /\
    query_loop (demo_scraper ["g1"; "s1"; "g2"; "s2"] 2) (take 2 ["g1"; "s1"; "g2"; "s2"])
      = (t, Returned (st, Continue)) /\
    ntimeouts st + 1
      = count_failures (demo_scraper ["g1"; "s1"; "g2"; "s2"] 2)
                       (take 3 ["g1"; "s1"; "g2"; "s2"]) /\
    query_urls (demo_scraper ["g1"; "s1"; "g2"; "s2"] 2) ["g1"; "s1"; "g2"; "s2"]
      = query_urls (demo_scraper ["g1"; "s1"; "g2"; "s2"] 2) (take 3 ["g1"; "s1"; "g2"; "s2"]).
Proof.
  eexists _, _.
  assert (["g1"; "s1"; "g2"; "s2"] !! 2%nat = Some "g2") as Hi by reflexivity.
  assert (fetch (demo_scraper ["g1"; "s1"; "g2"; "s2"] 2) "g2"
          = Some (Raised (Exc ConnectionError "connection refused"))) as Hf by reflexivity.
  assert (isinstance_Timeout (Exc ConnectionError "connection refused") = false)
    as He by reflexivity.
  assert (isinstance_RequestException (Exc ConnectionError "connection refused") = true)
    as Hr by reflexivity.
  split; [exact Hi|]. split; [exact Hf|]. split; [exact He|]. split; [exact Hr|].
  split; [reflexivity|].
  destruct (generic_failure_budget (demo_scraper ["g1"; "s1"; "g2"; "s2"] 2)
              ["g1"; "s1"; "g2"; "s2"] 2 "g2" _ _ _ Hi Hf He Hr eq_refl)
    as (Hk & _ & Hhalt & _).
  split; [exact Hk|].
  destruct Hhalt as (t' & _ & Heq & _); [by vm_compute|]. exact Heq.
Defined.

(** The two thresholds side by side, budget 2: two generic failures halt
    the shard, two timeouts do not. *)
Example generic_halts_one_failure_earlier :
  queries (query_urls (demo_scraper ["g1"; "g2"; "s1"] 2) ["g1"; "g2"; "s1"]).1
    = ["https://api.test/g1"; "https://api.test/g2"] /\
  queries (query_urls (demo_scraper ["t1"; "t2"; "s1"] 2) ["t1"; "t2"; "s1"]).1
    = ["https://api.test/t1"; "https://api.test/t2"; "https://api.test/s1"].
Proof. split; vm_compute; reflexivity. Qed.

(** C5 at three distinct succeeding identifiers. *)
Lemma all_success_result_map_witness :
  NoDup ["s1"; "s2"; "s3"] /\
  (forall id, id ∈ ["s1"; "s2"; "s3"] ->
     exists p, fetch (demo_scraper ["s1"; "s2"; "s3"] 10) id = Some (Returned p)) /\
  exists t m,
    query_urls (demo_scraper ["s1"; "s2"; "s3"] 10) ["s1"; "s2"; "s3"] = (t, Returned m) /\
    size m = length ["s1"; "s2"; "s3"] /\
    dom m = list_to_set ["s1"; "s2"; "s3"] /\
    forall id p, id ∈ ["s1"; "s2"; "s3"] ->
      fetch (demo_scraper ["s1"; "s2"; "s3"] 10) id = Some (Returned p) -> m !! id = Some p.
Proof.
  assert (NoDup ["s1"; "s2"; "s3"]) as Hnd.
  { apply (bool_decide_unpack _). by vm_compute. }
  assert (forall id, id ∈ ["s1"; "s2"; "s3"] ->
     exists p, fetch (demo_scraper ["s1"; "s2"; "s3"] 10) id = Some (Returned p)) as Hall.
  { intros id Hin. repeat (apply elem_of_cons in Hin as [->|Hin]); try (eexists; reflexivity).
    by apply elem_of_nil in Hin. }
  split; [exact Hnd|]. split; [exact Hall|].
  exact (all_success_result_map (demo_scraper ["s1"; "s2"; "s3"] 10) ["s1"; "s2"; "s3"] Hnd Hall).
Defined.

(** C6 at a batch with a success, a timeout, a halting generic failure and
    an identifier that is never reached. *)
Lemma result_map_only_successes_witness :
  exists t m,
    query_urls (demo_scraper ["s1"; "t1"; "g1"; "s2"] 2) ["s1"; "t1"; "g1"; "s2"]
      = (t, Returned m) /\
    m !! "s1" = Some "payload of https://api.test/s1" /\
    m !! "t1" = None /\ m !! "g1" = None /\ m !! "s2" = None /\ m !! "zz" = None.
Proof.
  eexists _, _. split; [reflexivity|]. split; [by vm_compute|].
  pose proof (result_map_only_successes (demo_scraper ["s1"; "t1"; "g1"; "s2"] 2)
                ["s1"; "t1"; "g1"; "s2"] _ _ eq_refl) as H.
  split; [|split; [|split]].
  - destruct (H "t1") as (_ & _ & Hfail & _). apply Hfail. intros p. by vm_compute.
  - destruct (H "g1") as (_ & _ & Hfail & _). apply Hfail. intros p. by vm_compute.
  - destruct (H "s2") as (_ & _ & _ & Hnever). apply (Hnever "https://api.test/s2").
    + by vm_compute.
    + vm_compute. intros Hin.
      repeat (apply elem_of_cons in Hin as [Hin|Hin]; [discriminate Hin|]).
      by apply elem_of_nil in Hin.
  - destruct (H "zz") as (_ & Hout & _). apply Hout. vm_compute. intros Hin.
    repeat (apply elem_of_cons in Hin as [Hin|Hin]; [discriminate Hin|]).
    by apply elem_of_nil in Hin.
Defined.



(** An exception of the fetch that is not a request error ends the run. *)
Example uncaught_error_ends_sequential_run :
  exists t,
    query_urls (demo_scraper ["s1"; "x1"; "s2"] 10) ["s1"; "x1"; "s2"]
      = (t, Raised (Exc ValueError "malformed payload")) /\
    run (demo_scraper ["s1"; "x1"; "s2"] 10) (PyInt 1)
      = (t, Raised (Exc ValueError "malformed payload")).
Proof. eexists. split; vm_compute; reflexivity. Qed.

Example uncaught_error_ends_parallel_run :
  (run (demo_scraper ["s1"; "s2"; "x1"; "s3"] 10) (PyInt 2)).2
  = Raised (Exc ValueError "malformed payload").
Proof. vm_compute. reflexivity. Qed.

(** With a file system that refuses the dump, [run] raises after the fetch
    phase although every fetch succeeded. *)
Example run_raises_when_dump_fails :
  (run (fs := fun _ _ _ => Some (Exc (OtherError "FileNotFoundError")
                                     "No such file or directory"))
       (demo_scraper ["s1"; "s2"] 10) (PyInt 1)).2
  = Raised (Exc (OtherError "FileNotFoundError") "No such file or directory").
Proof. vm_compute. reflexivity. Qed.

(** C8 at a string, a float and at zero workers. *)
Lemma run_rejects_bad_worker_count_witness :
  isinstance_int (PyStr "4") = false /\
  run (demo_scraper ["s1"; "s2"] 10) (PyStr "4")
    = ([], Raised (Exc ValueError "max_worker is of type <class 'str'>. Should be Int.")) /\
  run (demo_scraper ["s1"; "s2"] 10) (PyFloat (2 # 1))
    = ([], Raised (Exc ValueError "max_worker is of type <class 'float'>. Should be Int.")) /\
  run (demo_scraper ["s1"; "s2"] 10) (PyInt 0)
    = ([], Raised (Exc ValueError "number sections must be larger than 0.")).
Proof.
  destruct (run_rejects_bad_worker_count (demo_scraper ["s1"; "s2"] 10)) as [Htype Hpos].
  split; [reflexivity|]. split; [|split].
  - exact (Htype (PyStr "4") eq_refl).
  - exact (Htype (PyFloat (2 # 1)) eq_refl).
  - apply (Hpos (PyInt 0) 0 eq_refl). lia.
Defined.



(** A template whose braces do not pair raises the [ValueError] of
    [str.format], which is not a check of the number of slots. *)
Example constructor_single_brace :
  __init__ (Payload:=string) (PyStr "demo") "out" ["a"] (PyStr "a{") true true None
  = Some ([], Raised (Exc ValueError "Single '{' encountered in format string")).
Proof. reflexivity. Qed.

(** Two slots with a non-empty identifier list: [str.format] raises while
    the URLs are built. *)
Example constructor_two_slots :
  __init__ (Payload:=string) (PyStr "demo") "out" ["a"] (PyStr "https://api.test/{}/{}")
           true true None
  = Some ([], Raised (Exc IndexError
      "Replacement index 1 out of range for positional args tuple")).
Proof. reflexivity. Qed.

(** * Further properties of the code *)

(** ** The batch runner: order, budget, exceptions, logs and sleeps *)

Section BatchFacts.

Context {Payload Tools : Type} {impl : Scraper Payload Tools}.
Variable self : base_scraper Payload.

Local Abbreviation tools := (__setup__ (silent self)).
Local Abbreviation opts := (options self).
Local Abbreviation nmax := (nmaxtimeouts self).
Local Abbreviation loop := (for_loop self tools opts nmax).
Local Abbreviation body := (loop_body self tools opts nmax).
Local Abbreviation cached := (fun id url => identifiers_urls self !! id = Some url).

Ltac fetch_cases id st :=
  destruct (identifiers_urls self !! id) as [url|] eqn:Hu;
  [ destruct (query_url url (__setup__ (silent self)) (options self)) as [p|e] eqn:Hq;
    [ rewrite (loop_body_success self id st url p Hu Hq)
    | destruct (isinstance_Timeout e) eqn:He;
      [ rewrite (loop_body_timeout self id st url e Hu Hq He)
      | destruct (isinstance_RequestException e) eqn:Hr;
        [ rewrite (loop_body_generic self id st url e Hu Hq He Hr)
        | rewrite (loop_body_uncaught self id st url e Hu Hq Hr) ] ] ]
  | rewrite (loop_body_no_url self id st Hu) ].

Lemma count_failures_cons id l :
  count_failures self (id :: l)
  = (if is_timeout self id then 1 else 0) + (if is_generic_failure self id then 1 else 0)
    + count_failures self l.
Proof. unfold count_failures. rewrite count_timeouts_cons, count_generic_cons. lia. Qed.

Lemma count_failures_app l1 l2 :
  count_failures self (l1 ++ l2) = count_failures self l1 + count_failures self l2.
Proof. unfold count_failures. rewrite count_timeouts_app, count_generic_app. lia. Qed.

Lemma count_failures_nonneg l : 0 <= count_failures self l.
Proof.
  unfold count_failures.
  pose proof (count_timeouts_nonneg self l). pose proof (count_generic_nonneg self l). lia.
Qed.

Lemma count_failures_nil : count_failures self [] = 0.
Proof. done. Qed.

(** The classes of an identifier by the outcome of its fetch. *)
Lemma classes_success id url p :
  identifiers_urls self !! id = Some url -> query_url url tools opts = Returned p ->
  is_timeout self id = false /\ is_generic_failure self id = false
  /\ payload_of self id = Some p.
Proof. intros Hu Hq. unfold is_timeout, is_generic_failure, payload_of, fetch. by rewrite Hu, Hq. Qed.

Lemma classes_timeout id url e :
  identifiers_urls self !! id = Some url -> query_url url tools opts = Raised e ->
  isinstance_Timeout e = true ->
  is_timeout self id = true /\ is_generic_failure self id = false
  /\ payload_of self id = None.
Proof.
  intros Hu Hq He. unfold is_timeout, is_generic_failure, payload_of, fetch.
  by rewrite Hu, Hq, He.
Qed.

Lemma classes_generic id url e :
  identifiers_urls self !! id = Some url -> query_url url tools opts = Raised e ->
  isinstance_Timeout e = false -> isinstance_RequestException e = true ->
  is_timeout self id = false /\ is_generic_failure self id = true
  /\ payload_of self id = None.
Proof.
  intros Hu Hq He Hr. unfold is_timeout, is_generic_failure, payload_of, fetch.
  by rewrite Hu, Hq, He, Hr.
Qed.

(** The run of the loop: it queries the cached URLs of a prefix of the
    list, one query per position and in order; when it returns, the counter
    has counted the failures of that prefix; when it returns without
    [break], the prefix is the whole list. *)
Lemma loop_run ids st t r :
  loop ids st = (t, r) ->
  exists n, (n <= length ids)%nat /\
    Forall2 cached (take n ids) (queries t) /\
    forall st' c, r = Returned (st', c) ->
      ntimeouts st' = ntimeouts st + count_failures self (take n ids) /\
      (c = Continue -> n = length ids).
Proof.
  revert st t r. induction ids as [|id ids IH]; intros st t r.
  - intros [= <- <-]. exists 0%nat. split; [done|]. split; [constructor|].
    intros st' c [= <- <-]. rewrite take_0, count_failures_nil. split; [lia|done].
  - rewrite loop_cons. fetch_cases id st.
    + destruct (classes_success id url p Hu Hq) as (Ht & Hg & _).
      cbn [bind snd fst]. destruct (loop ids _) as [t2 r2] eqn:Hl. intros [= <- <-].
      destruct (IH _ _ _ Hl) as (n & Hn & HF & Hret). exists (S n).
      split; [simpl; lia|]. split.
      { rewrite !queries_app, queries_sleeps. cbn. by constructor. }
      intros st' c ->. destruct (Hret st' c eq_refl) as [Hc Hfull].
      cbn [take]. rewrite count_failures_cons, Ht, Hg. cbn in Hc. split; [lia|].
      intros Hcont. simpl. by rewrite Hfull.
    + destruct (classes_timeout id url e Hu Hq He) as (Ht & Hg & _).
      destruct (ntimeouts st + 1 >? nmax); cbn [bind snd fst].
      * intros [= <- <-]. exists 1%nat. split; [simpl; lia|]. split.
        { rewrite app_nil_r, queries_app, queries_sleeps. cbn. rewrite take_0.
          by repeat constructor. }
        intros st' c [= <- <-]. cbn [take]. rewrite take_0, count_failures_cons, Ht, Hg.
        rewrite count_failures_nil. cbn. split; [lia|done].
      * destruct (loop ids _) as [t2 r2] eqn:Hl. intros [= <- <-].
        destruct (IH _ _ _ Hl) as (n & Hn & HF & Hret). exists (S n).
        split; [simpl; lia|]. split.
        { rewrite !queries_app, queries_sleeps. cbn. by constructor. }
        intros st' c ->. destruct (Hret st' c eq_refl) as [Hc Hfull].
        cbn [take]. rewrite count_failures_cons, Ht, Hg. cbn in Hc. split; [lia|].
        intros Hcont. simpl. by rewrite Hfull.
    + destruct (classes_generic id url e Hu Hq He Hr) as (Ht & Hg & _).
      destruct (ntimeouts st + 1 >=? nmax); cbn [bind snd fst].
      * intros [= <- <-]. exists 1%nat. split; [simpl; lia|]. split.
        { rewrite app_nil_r, queries_app, queries_sleeps. cbn. rewrite take_0.
          by repeat constructor. }
        intros st' c [= <- <-]. cbn [take]. rewrite take_0, count_failures_cons, Ht, Hg.
        rewrite count_failures_nil. cbn. split; [lia|done].
      * destruct (loop ids _) as [t2 r2] eqn:Hl. intros [= <- <-].
        destruct (IH _ _ _ Hl) as (n & Hn & HF & Hret). exists (S n).
        split; [simpl; lia|]. split.
        { rewrite !queries_app, queries_sleeps. cbn. by constructor. }
        intros st' c ->. destruct (Hret st' c eq_refl) as [Hc Hfull].
        cbn [take]. rewrite count_failures_cons, Ht, Hg. cbn in Hc. split; [lia|].
        intros Hcont. simpl. by rewrite Hfull.
    + cbn [bind]. intros [= <- <-]. exists 1%nat. split; [simpl; lia|]. split.
      { rewrite queries_app, queries_sleeps. cbn. rewrite take_0. by repeat constructor. }
      intros st' c. done.
    + cbn [bind]. intros [= <- <-]. exists 0%nat. split; [simpl; lia|]. split.
      { rewrite queries_sleeps. cbn. constructor. }
      intros st' c. done.
Qed.

Lemma query_urls_trace ids : (query_urls self ids).1 = (query_loop self ids).1.
Proof.
  unfold query_urls. destruct (query_loop self ids) as [t [[st c]|e]]; [|done].
  cbn. by rewrite app_nil_r.
Qed.

(** X1.  A batch queries the cached URLs of a prefix of its identifiers,
    one query per position and in the order of the input: no identifier is
    skipped before the last query, none is queried twice for one position,
    none is retried.  When the loop ends without [break], the prefix is the
    whole input. *)
Theorem queries_in_input_order ids :
  exists n, (n <= length ids)%nat /\
    Forall2 (fun id url => identifiers_urls self !! id = Some url)
            (take n ids) (queries (query_urls self ids).1) /\
    forall st, (query_loop self ids).2 = Returned (st, Continue) -> n = length ids.
Proof.
  rewrite query_urls_trace. unfold query_loop.
  destruct (loop ids init_locals) as [t r] eqn:Hl.
  destruct (loop_run ids _ _ _ Hl) as (n & Hn & HF & Hret).
  exists n. split; [done|]. split; [done|].
  intros st Hr. cbn in Hr. by destruct (Hret st Continue Hr) as [_ Hfull]; auto.
Qed.

(** While the loop goes on the counter stays within the budget; it
    exceeds it by at most one, at the step that leaves the loop. *)
Lemma loop_counter_bound ids st t st' c :
  loop ids st = (t, Returned (st', c)) ->
  ntimeouts st <= Z.max nmax 0 ->
  ntimeouts st' <= Z.max nmax 0 + (match c with Break => 1 | Continue => 0 end).
Proof.
  revert st t. induction ids as [|id ids IH]; intros st t.
  - intros [= <- <- <-] Hb. lia.
  - rewrite loop_cons. fetch_cases id st; cbn [bind snd fst]; try done.
    + destruct (loop ids _) as [t2 r2] eqn:Hl. intros [= <- ->] Hb.
      by apply (IH _ _ Hl).
    + destruct (ntimeouts st + 1 >? nmax) eqn:Hcmp; cbn [bind snd fst].
      * intros [= <- <- <-] Hb. cbn. lia.
      * destruct (loop ids _) as [t2 r2] eqn:Hl. intros [= <- ->] Hb.
        apply (IH _ _ Hl). cbn. lia.
    + destruct (ntimeouts st + 1 >=? nmax) eqn:Hcmp; cbn [bind snd fst].
      * intros [= <- <- <-] Hb. cbn. lia.
      * destruct (loop ids _) as [t2 r2] eqn:Hl. intros [= <- ->] Hb.
        apply (IH _ _ Hl). cbn. lia.
Qed.

(** X2.  When a batch returns, its counter equals the number of failed
    fetches (timeouts and other transport errors) among the identifiers it
    queried, and that number is at most [max(nmaxtimeouts, 0) + 1]: a batch
    never makes more failing fetches than the budget plus one, and none
    beyond the budget unless it halts there. *)
Theorem failures_bounded_by_budget ids t st c :
  query_loop self ids = (t, Returned (st, c)) ->
  ntimeouts st = count_failures self (take (length (queries t)) ids) /\
  count_failures self (take (length (queries t)) ids) <= Z.max (nmaxtimeouts self) 0 + 1 /\
  (c = Continue ->
   count_failures self (take (length (queries t)) ids) <= Z.max (nmaxtimeouts self) 0).
Proof.
  unfold query_loop. intros Hl.
  destruct (loop_run ids _ _ _ Hl) as (n & Hn & HF & Hret).
  destruct (Hret st c eq_refl) as [Hc _]. cbn in Hc.
  assert (length (queries t) = n) as ->.
  { apply Forall2_length in HF. rewrite length_take in HF. lia. }
  pose proof (loop_counter_bound ids _ _ _ _ Hl) as Hb. cbn in Hb.
  specialize (Hb ltac:(lia)).
  split; [lia|]. split; [destruct c; lia|]. intros ->. lia.
Qed.

Lemma loop_raised ids st t err :
  loop ids st = (t, Raised err) ->
  exists id, id ∈ ids /\
    ((identifiers_urls self !! id = None /\ err = Exc KeyError id) \/
     (fetch self id = Some (Raised err) /\ isinstance_RequestException err = false)).
Proof.
  revert st t. induction ids as [|id ids IH]; intros st t; [done|].
  assert (forall st1 t1, loop ids st1 = (t1, Raised err) ->
    exists id', id' ∈ id :: ids /\
    ((identifiers_urls self !! id' = None /\ err = Exc KeyError id') \/
     (fetch self id' = Some (Raised err) /\ isinstance_RequestException err = false)))
    as Hrest.
  { intros st1 t1 Hl. destruct (IH _ _ Hl) as (id' & Hin & H). exists id'. split; [by right|done]. }
  rewrite loop_cons. fetch_cases id st; cbn [bind snd fst].
  - destruct (loop ids _) as [t2 r2] eqn:Hl. intros [= <- ->]. by eapply Hrest.
  - destruct (ntimeouts st + 1 >? nmax); cbn [bind snd fst]; [done|].
    destruct (loop ids _) as [t2 r2] eqn:Hl. intros [= <- ->]. by eapply Hrest.
  - destruct (ntimeouts st + 1 >=? nmax); cbn [bind snd fst]; [done|].
    destruct (loop ids _) as [t2 r2] eqn:Hl. intros [= <- ->]. by eapply Hrest.
  - intros [= <- <-]. exists id. split; [by left|]. right.
    unfold fetch. by rewrite Hu, Hq.
  - intros [= <- <-]. exists id. split; [by left|]. by left.
Qed.

(** X3.  An exception that leaves a batch is either the [KeyError] of an
    identifier of the batch that has no cached URL, or the exception the
    fetch of one of its identifiers raised, and then it is not an instance
    of the transport's exception class: a batch never raises a timeout or
    another request error. *)
Theorem batch_exception_origin ids t e :
  query_urls self ids = (t, Raised e) ->
  exists id, id ∈ ids /\
    ((identifiers_urls self !! id = None /\ e = Exc KeyError id) \/
     (fetch self id = Some (Raised e) /\ isinstance_RequestException e = false)).
Proof.
  unfold query_urls, query_loop.
  destruct (loop ids init_locals) as [t1 [[st c]|e1]] eqn:Hl; [done|].
  intros [= <- <-]. by eapply loop_raised.
Qed.

(** The entry the loop leaves for a key: the payload of the key when the
    key is in the list and its fetch succeeds, the entry it had otherwise. *)
Local Abbreviation entry_after ids st k :=
  (match (if decide (k ∈ ids) then payload_of self k else None) with
   | Some p => Some p
   | None => results st !! k
   end).

Lemma entry_after_insert id ids st p k :
  payload_of self id = Some p ->
  entry_after ids {| results := <[id := p]> (results st); ntimeouts := ntimeouts st;
                     timeoutted_identifiers := timeoutted_identifiers st |} k
  = entry_after (id :: ids) st k.
Proof.
  intros Hp. cbn [results]. destruct (decide (k = id)) as [->|Hne].
  - rewrite lookup_insert_eq, (decide_True (P := id ∈ id :: ids)) by (by left).
    rewrite Hp. by case_decide.
  - rewrite lookup_insert_ne by done.
    destruct (decide (k ∈ ids)) as [Hin|Hnin].
    + by rewrite decide_True by (by right).
    + rewrite decide_False; [done|]. rewrite elem_of_cons. naive_solver.
Qed.

Lemma entry_after_failed id ids st k :
  payload_of self id = None ->
  entry_after ids st k = entry_after (id :: ids) st k.
Proof.
  intros Hp. destruct (decide (k = id)) as [->|Hne].
  - rewrite (decide_True (P := id ∈ id :: ids)) by (by left). rewrite Hp.
    by case_decide.
  - destruct (decide (k ∈ ids)) as [Hin|Hnin].
    + by rewrite decide_True by (by right).
    + rewrite decide_False; [done|]. rewrite elem_of_cons. naive_solver.
Qed.

(** With fewer failures in the list than the budget leaves, the loop runs
    through the whole list. *)
Lemma loop_within_budget ids st :
  (forall id, id ∈ ids -> exists url, identifiers_urls self !! id = Some url /\
     forall e, query_url url tools opts = Raised e -> isinstance_RequestException e = true) ->
  ntimeouts st + count_failures self ids < nmax ->
  exists t st', loop ids st = (t, Returned (st', Continue)) /\
    forall k, results st' !! k = entry_after ids st k.
Proof.
  revert st. induction ids as [|id ids IH]; intros st Hall Hlt.
  - exists [], st. split; [done|]. intros k. by rewrite decide_False by apply not_elem_of_nil.
  - assert (forall id', id' ∈ ids -> exists url, identifiers_urls self !! id' = Some url /\
       forall e, query_url url tools opts = Raised e -> isinstance_RequestException e = true)
      as Hall'.
    { intros id' Hin. apply Hall. by right. }
    destruct (Hall id) as (url0 & Hu0 & Hexc); [by left|].
    rewrite count_failures_cons in Hlt. pose proof (count_failures_nonneg ids) as Hnn.
    rewrite loop_cons. fetch_cases id st; cbn [bind snd fst]; try congruence.
    + destruct (classes_success id url p Hu Hq) as (Ht & Hg & Hp). rewrite Ht, Hg in Hlt.
      destruct (IH {| results := <[id:=p]> (results st); ntimeouts := ntimeouts st;
                      timeoutted_identifiers := timeoutted_identifiers st |} Hall')
        as (t2 & st2 & Hl & Hres); [cbn; lia|].
      rewrite Hl. eexists _, st2. split; [done|]. intros k.
      by rewrite Hres, (entry_after_insert id ids st p k Hp).
    + destruct (classes_timeout id url e Hu Hq He) as (Ht & Hg & Hp). rewrite Ht, Hg in Hlt.
      assert ((ntimeouts st + 1 >? nmax) = false) as -> by lia. cbn [bind snd fst].
      destruct (IH (count_failure st [id]) Hall') as (t2 & st2 & Hl & Hres); [cbn; lia|].
      rewrite Hl. eexists _, st2. split; [done|]. intros k.
      rewrite Hres. cbn [results count_failure]. by apply entry_after_failed.
    + destruct (classes_generic id url e Hu Hq He Hr) as (Ht & Hg & Hp). rewrite Ht, Hg in Hlt.
      assert ((ntimeouts st + 1 >=? nmax) = false) as -> by lia. cbn [bind snd fst].
      destruct (IH (count_failure st []) Hall') as (t2 & st2 & Hl & Hres); [cbn; lia|].
      rewrite Hl. eexists _, st2. split; [done|]. intros k.
      rewrite Hres. cbn [results count_failure]. by apply entry_after_failed.
    + assert (url = url0) as -> by congruence. rewrite (Hexc e Hq) in Hr. done.
Qed.

(** X4.  When every identifier of a batch has a cached URL, no fetch
    raises outside the transport's classes and the batch has fewer failing
    identifiers than [nmaxtimeouts], the batch queries every identifier and
    returns exactly the payloads of the identifiers whose fetch succeeds:
    within the budget a failure costs its own entry and nothing else. *)
Theorem failures_within_budget ids :
  (forall id, id ∈ ids -> exists url, identifiers_urls self !! id = Some url /\
     forall e, query_url url (__setup__ (silent self)) (options self) = Raised e ->
               isinstance_RequestException e = true) ->
  count_failures self ids < nmaxtimeouts self ->
  exists t m,
    query_urls self ids = (t, Returned m) /\
    Forall2 (fun id url => identifiers_urls self !! id = Some url) ids (queries t) /\
    forall k, m !! k = if decide (k ∈ ids) then payload_of self k else None.
Proof.
  intros Hall Hlt.
  destruct (loop_within_budget ids init_locals Hall) as (t & st & Hl & Hres); [cbn; lia|].
  exists t, (results st). split; [by eapply query_urls_of_loop|]. split.
  - destruct (loop_run ids _ _ _ Hl) as (n & Hn & HF & Hret).
    destruct (Hret st Continue eq_refl) as [_ Hfull]. rewrite Hfull in HF by done.
    by rewrite take_ge in HF.
  - intros k. rewrite Hres. cbn [results init_locals]. rewrite lookup_empty.
    by destruct (if decide (k ∈ ids) then payload_of self k else None).
Qed.

Lemma log_not_in_sleeps level msg :
  Log level msg ∉ (call_sleep (Payload:=Payload) (_sleep self)).1.
Proof.
  destruct (_sleep self); cbn.
  - rewrite elem_of_cons, elem_of_nil. naive_solver.
  - apply not_elem_of_nil.
Qed.

Lemma loop_full_stop ids st t st' c :
  loop ids st = (t, Returned (st', c)) ->
  (c = Break <-> Log ERROR "===== Full Stop  =====" ∈ t).
Proof.
  revert st t. induction ids as [|id ids IH]; intros st t.
  - intros [= <- <- <-]. split; [done|]. by intros H%elem_of_nil.
  - pose proof (log_not_in_sleeps ERROR "===== Full Stop  =====") as Hsl.
    rewrite loop_cons. fetch_cases id st; cbn [bind snd fst]; try done.
    + destruct (loop ids _) as [t2 r2] eqn:Hl. intros [= <- ->].
      rewrite (IH _ _ Hl), !elem_of_app, !elem_of_cons, elem_of_nil. naive_solver.
    + destruct (ntimeouts st + 1 >? nmax); cbn [bind snd fst].
      * intros [= <- <- <-]. rewrite !elem_of_app, !elem_of_cons. naive_solver.
      * destruct (loop ids _) as [t2 r2] eqn:Hl. intros [= <- ->].
        rewrite (IH _ _ Hl), !elem_of_app, !elem_of_cons, elem_of_nil. naive_solver.
    + destruct (ntimeouts st + 1 >=? nmax); cbn [bind snd fst].
      * intros [= <- <- <-]. rewrite !elem_of_app, !elem_of_cons. naive_solver.
      * destruct (loop ids _) as [t2 r2] eqn:Hl. intros [= <- ->].
        rewrite (IH _ _ Hl), !elem_of_app, !elem_of_cons, elem_of_nil. naive_solver.
Qed.

(** X5.  A batch that returns was cut short by the budget exactly when its
    log holds the error record [===== Full Stop  =====]: the truncation,
    which the returned map does not show, can always be told from the
    log. *)
Theorem halt_is_logged ids t st c :
  query_loop self ids = (t, Returned (st, c)) ->
  (c = Break <-> Log ERROR "===== Full Stop  =====" ∈ t).
Proof. unfold query_loop. apply loop_full_stop. Qed.

Lemma sleeps_app (t1 t2 : list (event Payload)) : sleeps (t1 ++ t2) = sleeps t1 ++ sleeps t2.
Proof.
  induction t1 as [|ev t1 IH]; [done|]. destruct ev; cbn; by rewrite ?IH.
Qed.

Lemma bind_trace_returned {A B} (t1 : list (event Payload)) (a : A) (k : A -> M Payload B) :
  (bind (t1, Returned a) k).1 = t1 ++ (k a).1.
Proof. cbn. by destruct (k a). Qed.

Lemma loop_sleeps_for seconds ids st :
  _sleep self = SleepFor seconds ->
  (forall id, id ∈ ids -> is_Some (identifiers_urls self !! id)) ->
  sleeps (loop ids st).1 = replicate (length (queries (loop ids st).1)) seconds.
Proof.
  intros Hs. revert st. induction ids as [|id ids IH]; intros st Hall; [done|].
  assert (forall st1, sleeps (loop ids st1).1
                      = replicate (length (queries (loop ids st1).1)) seconds) as IH'.
  { intros st1. apply IH. intros id' Hin. apply Hall. by right. }
  destruct (Hall id) as [url0 Hu0]; [by left|].
  rewrite loop_cons.
  fetch_cases id st; try congruence; rewrite Hs; cbn [call_sleep emit fst];
    try (destruct (ntimeouts st + 1 >? nmax)); try (destruct (ntimeouts st + 1 >=? nmax));
    rewrite ?bind_trace_returned; cbn [snd fst ret bind];
    rewrite ?sleeps_app, ?queries_app, ?IH'; cbn; by rewrite ?app_nil_r.
Qed.

Lemma loop_no_sleep ids st :
  _sleep self = NoSleep -> sleeps (loop ids st).1 = [].
Proof.
  intros Hs. revert st. induction ids as [|id ids IH]; intros st; [done|].
  rewrite loop_cons.
  fetch_cases id st; rewrite Hs; cbn [call_sleep ret fst];
    try (destruct (ntimeouts st + 1 >? nmax)); try (destruct (ntimeouts st + 1 >=? nmax));
    rewrite ?bind_trace_returned; cbn [snd fst ret bind];
    rewrite ?sleeps_app, ?IH; cbn; by rewrite ?app_nil_r.
Qed.

(** X6.  For the closure [__sleep_func] makes of [sleep_in_seconds]: with
    a positive value a batch over identifiers with cached URLs sleeps that
    long once for every query it makes, and never otherwise; with zero or a
    negative value a batch never sleeps. *)
Theorem sleep_before_every_query (sleep_in_seconds : Q) ids :
  _sleep self = __sleep_func sleep_in_seconds ->
  (forall id, id ∈ ids -> is_Some (identifiers_urls self !! id)) ->
  sleeps (query_urls self ids).1
  = if Qlt_le_dec 0 sleep_in_seconds
    then replicate (length (queries (query_urls self ids).1)) sleep_in_seconds
    else [].
Proof.
  intros Hs Hall. rewrite query_urls_trace. unfold query_loop.
  unfold __sleep_func in Hs. destruct (Qlt_le_dec 0 sleep_in_seconds).
  - by apply loop_sleeps_for.
  - by apply loop_no_sleep.
Qed.

End BatchFacts.

(** ** Workers and the entry point: budgets per shard, exceptions, the dump *)

Section ParallelFacts.

Context {Payload Tools : Type} {impl : Scraper Payload Tools} {fs : FileSystem Payload}.
Variable self : base_scraper Payload.

(** Identifiers that do not end in NUL come back from the partitioning
    step as they went in. *)
Lemma array_split_concat (l : list string) (W : Z) :
  0 < W ->
  Forall (fun id => nul_terminated id = false) l ->
  exists shards, array_split l W = Returned shards /\ concat shards = l.
Proof.
  intros HW Hnul.
  destruct (array_split_shards l W ltac:(lia)) as (shards & Hsplit & _ & Hconcat & _).
  exists shards. split; [done|]. rewrite Hconcat.
  unfold array_item, string_array_item. by apply map_np_str_id.
Qed.

Lemma count_failures_shard (shards : list (list string)) s :
  s ∈ shards -> count_failures self s <= count_failures self (concat shards).
Proof.
  induction shards as [|s0 shards IH]; [by intros H%elem_of_nil|].
  cbn [concat]. rewrite count_failures_app.
  pose proof (count_failures_nonneg self s0). pose proof (count_failures_nonneg self (concat shards)).
  intros [->|Hin]%elem_of_cons; [lia|]. specialize (IH Hin). lia.
Qed.

(** The merge of maps that hold, for the keys of their shard, the payloads
    of the successful fetches. *)
Lemma flatten_lookup_payloads (F : string -> option Payload) shards ms acc k :
  Forall2 (fun s (m : gmap string Payload) =>
             forall k, m !! k = if decide (k ∈ s) then F k else None) shards ms ->
  foldl (fun acc results_worker => results_worker ∪ acc) acc ms !! k
  = match (if decide (k ∈ concat shards) then F k else None) with
    | Some p => Some p
    | None => acc !! k
    end.
Proof.
  intros HF. revert acc. induction HF as [|s m shards ms Hm _ IH]; intros acc.
  - cbn. by rewrite decide_False by apply not_elem_of_nil.
  - cbn [foldl concat]. rewrite IH, lookup_union, Hm.
    destruct (decide (k ∈ concat shards)) as [Hin|Hnin].
    + rewrite (decide_True (P := k ∈ s ++ concat shards)) by (rewrite elem_of_app; by right).
      destruct (F k) as [p|]; [done|]. destruct (decide (k ∈ s)); by destruct (acc !! k).
    + destruct (decide (k ∈ s)) as [Hs|Hns].
      * rewrite (decide_True (P := k ∈ s ++ concat shards)) by (rewrite elem_of_app; by left).
        destruct (F k) as [p|]; by destruct (acc !! k).
      * rewrite (decide_False (P := k ∈ s ++ concat shards))
          by (rewrite elem_of_app; naive_solver).
        by destruct (acc !! k).
Qed.

Lemma query_urls_within_budget ids :
  (forall id, id ∈ ids -> exists url, identifiers_urls self !! id = Some url /\
     forall e, query_url url (__setup__ (silent self)) (options self) = Raised e ->
               isinstance_RequestException e = true) ->
  count_failures self ids < nmaxtimeouts self ->
  exists t m, query_urls self ids = (t, Returned m) /\
    forall k, m !! k = if decide (k ∈ ids) then payload_of self k else None.
Proof.
  intros Hall Hlt.
  destruct (loop_within_budget self ids init_locals Hall) as (t & st & Hl & Hres); [cbn; lia|].
  exists t, (results st). split; [by eapply query_urls_of_loop|].
  intros k. rewrite Hres. cbn [results init_locals]. rewrite lookup_empty.
  by destruct (if decide (k ∈ ids) then payload_of self k else None).
Qed.

Lemma workers_within_budget (shards : list (list string)) :
  (forall id, id ∈ concat shards -> exists url, identifiers_urls self !! id = Some url /\
     forall e, query_url url (__setup__ (silent self)) (options self) = Raised e ->
               isinstance_RequestException e = true) ->
  (forall s, s ∈ shards -> count_failures self s < nmaxtimeouts self) ->
  exists ms,
    Forall2 (fun s m => exists t, query_urls self s = (t, Returned m)) shards ms /\
    Forall2 (fun s (m : gmap string Payload) =>
               forall k, m !! k = if decide (k ∈ s) then payload_of self k else None) shards ms.
Proof.
  induction shards as [|s shards IH]; intros Hall Hlt.
  - exists []. by split.
  - destruct IH as (ms & H1 & H2).
    { intros id Hin. apply Hall. cbn [concat]. rewrite elem_of_app. by right. }
    { intros s' Hin. apply Hlt. by right. }
    destruct (query_urls_within_budget s) as (t & m & Hq & Hm).
    { intros id Hin. apply Hall. cbn [concat]. rewrite elem_of_app. by left. }
    { apply Hlt. by left. }
    exists (m :: ms). split; constructor; eauto.
Qed.

(** X7.  Failures within the budget do not make the modes differ: when
    no identifier ends in a NUL character, every identifier has a cached
    URL, no fetch raises outside the transport's classes and the
    identifiers with a failing fetch are fewer than [nmaxtimeouts], the
    parallel run with any [W > 1] returns the map of the sequential batch,
    the payloads of the identifiers whose fetch succeeds. *)
Theorem parallel_equals_sequential_within_budget (W : Z) :
  1 < W ->
  Forall (fun id => nul_terminated id = false) (identifiers self) ->
  (forall id, id ∈ identifiers self -> exists url, identifiers_urls self !! id = Some url /\
     forall e, query_url url (__setup__ (silent self)) (options self) = Raised e ->
               isinstance_RequestException e = true) ->
  count_failures self (identifiers self) < nmaxtimeouts self ->
  exists t_seq t_par m,
    query_urls self (identifiers self) = (t_seq, Returned m) /\
    query_urls_parallel self W = (t_par, Returned m) /\
    forall k, m !! k = if decide (k ∈ identifiers self) then payload_of self k else None.
Proof.
  intros HW Hnul Hall Hlt.
  destruct (query_urls_within_budget (identifiers self) Hall Hlt) as (t_seq & m & Hseq & Hm).
  destruct (array_split_concat (identifiers self) W ltac:(lia) Hnul)
    as (shards & Hsplit & Hconcat).
  destruct (workers_within_budget shards) as (ms & Hruns & Hmaps).
  { by rewrite Hconcat. }
  { intros s Hin. pose proof (count_failures_shard shards s Hin) as Hle.
    rewrite Hconcat in Hle. lia. }
  assert (flatten ms = m) as Hflat.
  { apply map_eq. intros k. unfold flatten.
    rewrite (flatten_lookup_payloads (payload_of self) shards ms ∅ k Hmaps).
    rewrite Hconcat, Hm, lookup_empty.
    by destruct (if decide (k ∈ identifiers self) then payload_of self k else None). }
  exists t_seq. eexists. exists m. split; [done|]. split; [|done].
  unfold query_urls_parallel. rewrite Hsplit. unfold executor_map.
  rewrite (collect_returned _ _ _ Hruns). cbn. by rewrite Hflat.
Qed.

Lemma collect_first_raised {A B} (f : A -> M Payload B) pre a post t e :
  (forall a', a' ∈ pre -> exists t' b, f a' = (t', Returned b)) ->
  f a = (t, Raised e) ->
  collect (map f (pre ++ a :: post)) = Raised e.
Proof.
  intros Hpre Ha. induction pre as [|a0 pre IH]; cbn [app map collect].
  - by rewrite Ha.
  - destruct (Hpre a0) as (t0 & b0 & ->); [by left|].
    rewrite IH; [done|]. intros a' Hin. apply Hpre. by right.
Qed.

(** X8.  In parallel mode the exception of [run] is the exception of the
    first shard, in shard order, whose batch raised, whatever the shards
    behind it did; the events of that shard's worker are in the trace; the
    run returns no instance, so nothing is stored. *)
Theorem first_failing_shard_wins (W : Z) shards pre s post t e :
  W <> 1 ->
  array_split (identifiers self) W = Returned shards ->
  shards = pre ++ s :: post ->
  (forall s', s' ∈ pre -> exists t' m, query_urls self s' = (t', Returned m)) ->
  query_urls self s = (t, Raised e) ->
  exists t', run self (PyInt W) = (t', Raised e) /\ Worker (length pre) t ∈ t'.
Proof.
  intros HW Hsplit -> Hpre Hs.
  eexists. split.
  - apply run_raised. rewrite (proj2 (Z.eqb_neq W 1)) by done.
    unfold query_urls_parallel. rewrite Hsplit. unfold executor_map.
    by rewrite (collect_first_raised _ _ _ _ _ _ Hpre Hs).
  - apply list_elem_of_lookup. exists (length pre).
    rewrite list_lookup_imap, list_lookup_fmap.
    rewrite lookup_app_r, Nat.sub_diag by done. cbn. by rewrite Hs.
Qed.

End ParallelFacts.

Section DumpFacts.

Context {Payload Tools : Type} {impl : Scraper Payload Tools} {fs : FileSystem Payload}.
Variable self : base_scraper Payload.

Local Abbreviation tools := (__setup__ (silent self)).
Local Abbreviation opts := (options self).
Local Abbreviation nmax := (nmaxtimeouts self).
Local Abbreviation loop := (for_loop self tools opts nmax).









End DumpFacts.

(** ** The constructor: the URL builder and the URL cache *)

Section ConstructorFacts.

Context {Payload : Type}.

Lemma list_ascii_of_string_app (a b : string) :
  list_ascii_of_string (a +:+ b) = list_ascii_of_string a ++ list_ascii_of_string b.
Proof. induction a as [|c a IH]; [done|]. simpl. by rewrite IH. Qed.

Lemma string_app_inv_head (p a b : string) : p +:+ a = p +:+ b -> a = b.
Proof. induction p as [|c p IH]; [done|]. simpl. intros [= H]. by apply IH. Qed.

Lemma string_app_inv_tail (a b s : string) : a +:+ s = b +:+ s -> a = b.
Proof.
  intros H. apply (f_equal list_ascii_of_string) in H.
  rewrite !list_ascii_of_string_app in H. apply app_inv_tail in H.
  apply (f_equal string_of_list_ascii) in H.
  by rewrite !string_of_list_ascii_of_string in H.
Qed.

Lemma prepend_prepend c s r :
  prepend (String c EmptyString) (prepend s r) = prepend (String c s) r.
Proof. by destruct r as [[t|e]|]. Qed.

Lemma format_chars_braceless_app pre rest arg n :
  Forall (fun c => c <> "{"%char /\ c <> "}"%char) pre ->
  format_chars (pre ++ rest) arg n
  = prepend (string_of_list_ascii pre) (format_chars rest arg n).
Proof.
  induction 1 as [|c pre [H1 H2] _ IH].
  - cbn. by destruct (format_chars rest arg n) as [[t|e]|].
  - cbn [app format_chars string_of_list_ascii].
    rewrite (proj2 (Ascii.eqb_neq c "{") H1), (proj2 (Ascii.eqb_neq c "}") H2), IH.
    apply prepend_prepend.
Qed.

Lemma count_slots_braceless_app pre rest :
  Forall (fun c => c <> "{"%char /\ c <> "}"%char) pre ->
  count_slots (pre ++ rest) = count_slots rest.
Proof.
  induction 1 as [|c pre [H1 H2] _ IH]; [done|].
  cbn [app count_slots]. rewrite IH.
  destruct (pre ++ rest) as [|c2 l] eqn:Happ.
  - apply app_eq_nil in Happ as [_ ->]. done.
  - by rewrite (proj2 (Ascii.eqb_neq c "{") H1), (proj2 (Ascii.eqb_neq c "}") H2).
Qed.

(** [str.format] on a template with one slot between two brace-free
    parts. *)
Lemma str_format_one_slot (prefix suffix : string) id :
  braceless prefix -> braceless suffix ->
  str_format (prefix +:+ "{}" +:+ suffix) id = Some (Returned (prefix +:+ id +:+ suffix)).
Proof.
  intros Hp Hs. unfold braceless in *.
  unfold str_format. rewrite list_ascii_of_string_app.
  rewrite (format_chars_braceless_app _ _ _ _ Hp).
  change ("{}" +:+ suffix) with (String "{" (String "}" suffix)).
  cbn [list_ascii_of_string].
  change (format_chars ("{"%char :: "}"%char :: list_ascii_of_string suffix) id 0)
    with (prepend id (format_chars (list_ascii_of_string suffix) id 1)).
  rewrite (format_chars_braceless _ _ _ Hs). cbn [prepend].
  by rewrite !string_of_list_ascii_of_string.
Qed.

(** X10.  [construct_urls] on a template with one slot between two
    brace-free parts: the template has one slot, the list of URLs has, for
    every identifier and in the order of the identifiers, the template with
    the identifier in the place of the slot, and two identifiers with the
    same URL are the same identifier. *)
Theorem construct_urls_one_slot (prefix suffix : string) ids :
  braceless prefix -> braceless suffix ->
  count_slots (list_ascii_of_string (prefix +:+ "{}" +:+ suffix)) = 1%nat /\
  construct_urls (prefix +:+ "{}" +:+ suffix) ids
  = Some (Returned (map (fun id => prefix +:+ id +:+ suffix) ids)) /\
  (forall id1 id2, prefix +:+ id1 +:+ suffix = prefix +:+ id2 +:+ suffix -> id1 = id2).
Proof.
  intros Hp Hs. split; [|split].
  - unfold braceless in *.
    rewrite list_ascii_of_string_app, (count_slots_braceless_app _ _ Hp).
    change ("{}" +:+ suffix) with (String "{" (String "}" suffix)).
    cbn [list_ascii_of_string].
    change (count_slots ("{"%char :: "}"%char :: list_ascii_of_string suffix))
      with (S (count_slots (list_ascii_of_string suffix))).
    by rewrite (count_slots_braceless _ Hs).
  - induction ids as [|id ids IH]; [done|].
    cbn [construct_urls map]. by rewrite (str_format_one_slot _ _ _ Hp Hs), IH.
  - intros id1 id2 Heq. apply string_app_inv_head in Heq. by apply string_app_inv_tail in Heq.
Qed.

Lemma construct_urls_Forall2 template ids us :
  construct_urls template ids = Some (Returned us) ->
  Forall2 (fun id url => str_format template id = Some (Returned url)) ids us.
Proof.
  revert us. induction ids as [|id ids IH]; intros us.
  - intros [= <-]. constructor.
  - cbn [construct_urls]. destruct (str_format template id) as [[url|e]|] eqn:Hf; try done.
    destruct (construct_urls template ids) as [[l|e]|]; try done.
    intros [= <-]. constructor; [done|]. by apply IH.
Qed.

(** Later pairs of the zip leave an entry alone when they can only write
    the same value again. *)
Lemma dict_zip_keeps (R : string -> string -> Prop) ids us (acc : gmap string string) id u :
  (forall k v v', R k v -> R k v' -> v = v') ->
  Forall2 R ids us -> R id u -> acc !! id = Some u ->
  foldl (fun d kv => <[kv.1 := kv.2]> d) acc (zip ids us) !! id = Some u.
Proof.
  intros Hfun HF. revert acc. induction HF as [|id0 u0 ids us HR _ IH]; intros acc Hid Hacc.
  - done.
  - cbn [zip zip_with foldl]. apply IH; [done|]. cbn.
    destruct (decide (id0 = id)) as [->|Hne].
    + rewrite lookup_insert_eq. f_equal. by eapply Hfun.
    + by rewrite lookup_insert_ne.
Qed.

Lemma dict_zip_lookup (R : string -> string -> Prop) ids us (acc : gmap string string) i id u :
  (forall k v v', R k v -> R k v' -> v = v') ->
  Forall2 R ids us -> ids !! i = Some id -> us !! i = Some u ->
  foldl (fun d kv => <[kv.1 := kv.2]> d) acc (zip ids us) !! id = Some u.
Proof.
  intros Hfun HF. revert acc i. induction HF as [|id0 u0 ids us HR HF IH]; intros acc i Hi Hu.
  - done.
  - cbn [zip zip_with foldl]. destruct i as [|i].
    + injection Hi as <-. injection Hu as <-.
      eapply dict_zip_keeps; eauto. cbn. by rewrite lookup_insert_eq.
    + by eapply IH.
Qed.

(** X11.  An instance the constructor returns holds the identifiers it was
    given and one URL per identifier, built with [str.format] from the
    template; the cache [identifiers_urls] maps every identifier of the
    list, duplicates included, to that URL, so a batch over identifiers of
    the instance never fails a cache lookup.  The budget and the sleep
    closure come from the options, with the defaults 10 and no sleep. *)
Theorem constructor_caches_urls kw out ids v sil sj o (self : base_scraper Payload) t :
  __init__ kw out ids v sil sj o = Some (t, Returned self) ->
  exists template,
    v = PyStr template /\ url_re self = template /\
    identifiers self = ids /\
    urls_to_scrape self = urls self /\
    length (urls self) = length ids /\
    (forall i id, ids !! i = Some id ->
       exists url, str_format template id = Some (Returned url) /\
                   urls self !! i = Some url /\
                   identifiers_urls self !! id = Some url) /\
    nmaxtimeouts self = default 10 (opt_nmaxtimeouts (default no_options o)) /\
    _sleep self = __sleep_func (default (0 # 1)%Q (opt_sleep_in_seconds (default no_options o))).
Proof.
  unfold __init__. destruct v as [| | | |template|]; try done.
  destruct kw as [| | | |kw|]; try done.
  destruct (construct_urls template ids) as [[us|e]|] eqn:Hc; try done.
  intros [= <- <-]. exists template. cbn.
  pose proof (construct_urls_Forall2 _ _ _ Hc) as HF.
  repeat split; try done.
  - symmetry. by eapply Forall2_length.
  - intros i id Hi.
    destruct (Forall2_lookup_l _ _ _ _ _ HF Hi) as (url & Hu & Hfmt).
    exists url. split; [done|]. split; [done|].
    unfold dict_zip. eapply (dict_zip_lookup _ ids us ∅ i id url); eauto.
    intros k v1 v2 H1 H2. cbn in *. congruence.
Qed.

End ConstructorFacts.

(** ** The tabular transform: rows, null rows, arity errors, merging *)

Section TransformFacts.

Implicit Types (c : columns) (items : subtypes) (avail_dict : gmap string subtypes).

Local Abbreviation table c :=
  (zip5 (ids_ c) (types_ c) (avails_ c) (totals_ c) (datestamps_ c)).

(** What the loops keep: the five column lists have one length, and
    [datestamp_] is the timestamp of the last row, unbound when there is no
    row yet. *)
Local Abbreviation aligned c :=
  (length (types_ c) = length (ids_ c) /\ length (avails_ c) = length (ids_ c) /\
   length (totals_ c) = length (ids_ c) /\ length (datestamps_ c) = length (ids_ c) /\
   datestamp_ c = last_timestamp (table c)).

Lemma zip5_snoc (a : list string) (b c d e : list pyval) x y z u v :
  length b = length a -> length c = length a -> length d = length a -> length e = length a ->
  zip5 (a ++ [x]) (b ++ [y]) (c ++ [z]) (d ++ [u]) (e ++ [v])
  = zip5 a b c d e ++ [(x, y, z, u, v)].
Proof.
  revert b c d e. induction a as [|x0 a IH]; intros [|y0 b] [|z0 c] [|u0 d] [|v0 e]; try done.
  cbn. intros [= Hb] [= Hc] [= Hd] [= He]. by rewrite IH.
Qed.

Lemma last_timestamp_snoc (rows : list (string * pyval * pyval * pyval * pyval)) row :
  last_timestamp (rows ++ [row]) = Some row.2.
Proof. unfold last_timestamp. by rewrite last_snoc. Qed.

Lemma aligned_no_columns : aligned no_columns.
Proof. done. Qed.

(** Appending one row keeps the invariant. *)
Lemma aligned_snoc c id ty a t d :
  aligned c ->
  aligned {| ids_ := ids_ c ++ [id]; types_ := types_ c ++ [ty];
             avails_ := avails_ c ++ [a]; totals_ := totals_ c ++ [t];
             datestamps_ := datestamps_ c ++ [d]; datestamp_ := Some d |} /\
  table {| ids_ := ids_ c ++ [id]; types_ := types_ c ++ [ty];
           avails_ := avails_ c ++ [a]; totals_ := totals_ c ++ [t];
           datestamps_ := datestamps_ c ++ [d]; datestamp_ := Some d |}
  = table c ++ [(id, ty, a, t, d)].
Proof.
  intros (H1 & H2 & H3 & H4 & H5). cbn.
  rewrite zip5_snoc by done. rewrite !length_app, H1, H2, H3, H4.
  by rewrite last_timestamp_snoc.
Qed.

Lemma rows_of_subtypes_returned id items c c' :
  aligned c ->
  rows_of_subtypes id items c = Returned c' ->
  aligned c' /\ table c' = table c ++ subtype_rows id items /\
  Forall (fun item => length item.2 = 3%nat) items.
Proof.
  revert c. induction items as [|[type_ value] items IH]; intros c Hal.
  - intros [= <-]. cbn. by rewrite app_nil_r.
  - cbn [rows_of_subtypes].
    destruct value as [|a [|t [|d [|x value]]]]; try done. cbn [unpack3].
    intros Hr. destruct (aligned_snoc c id (PyStr type_) a t d Hal) as [Hal' Htab].
    destruct (IH _ Hal' Hr) as (Hal'' & Htab' & Hwf).
    split; [done|]. split; [|by constructor].
    rewrite Htab', Htab. unfold subtype_rows. cbn. by rewrite <- app_assoc.
Qed.

Lemma rows_of_subtypes_returns id items c :
  Forall (fun item => length item.2 = 3%nat) items ->
  exists c', rows_of_subtypes id items c = Returned c'.
Proof.
  intros H. revert c. induction H as [|[type_ value] items Hv _ IH]; intros c.
  - by eexists.
  - cbn [rows_of_subtypes]. cbn in Hv.
    destruct value as [|a [|t [|d [|x value]]]]; try done. cbn [unpack3]. apply IH.
Qed.

Lemma rows_of_subtypes_bad_arity id items c :
  ~ Forall (fun item => length item.2 = 3%nat) items ->
  exists msg, rows_of_subtypes id items c = Raised (Exc ValueError msg).
Proof.
  revert c. induction items as [|[type_ value] items IH]; intros c Hbad.
  - destruct Hbad. constructor.
  - cbn [rows_of_subtypes].
    destruct (unpack3 value) as [[[a t] d]|e] eqn:Hun.
    + apply IH. intros Hwf. apply Hbad. constructor; [|done].
      cbn. by destruct value as [|? [|? [|? [|? ?]]]].
    + destruct value as [|? [|? [|? [|? ?]]]]; cbn in Hun; try done;
        injection Hun as <-; by eexists.
Qed.

Lemma null_row_returned id c :
  aligned c ->
  null_row id c
  = match last_timestamp (table c) with
    | Some d =>
      Returned {| ids_ := ids_ c ++ [id]; types_ := types_ c ++ [PyNone];
                  avails_ := avails_ c ++ [PyNone]; totals_ := totals_ c ++ [PyNone];
                  datestamps_ := datestamps_ c ++ [d]; datestamp_ := Some d |}
    | None =>
      Raised (Exc UnboundLocalError
        "cannot access local variable 'datestamp_' where it is not associated with a value")
    end.
Proof. intros (_ & _ & _ & _ & H). unfold null_row. by rewrite H. Qed.

Lemma rows_of_ids_app l1 l2 avail_dict c :
  rows_of_ids (l1 ++ l2) avail_dict c
  = match rows_of_ids l1 avail_dict c with
    | Raised e => Raised e
    | Returned c' => rows_of_ids l2 avail_dict c'
    end.
Proof.
  revert c. induction l1 as [|id l1 IH]; intros c; [done|].
  cbn [app rows_of_ids].
  destruct (match avail_dict !! id with Some items => _ | None => _ end) as [c'|e]; [|done].
  apply IH.
Qed.

Lemma rows_of_ids_aligned ids avail_dict c c' :
  aligned c -> rows_of_ids ids avail_dict c = Returned c' -> aligned c'.
Proof.
  revert c. induction ids as [|id ids IH]; intros c Hal.
  - by intros [= <-].
  - cbn [rows_of_ids]. destruct (avail_dict !! id) as [items|].
    + destruct (rows_of_subtypes id items c) as [c1|e] eqn:Hr; [|done].
      destruct (rows_of_subtypes_returned _ _ _ _ Hal Hr) as (Hal1 & _). by apply IH.
    + rewrite (null_row_returned id c Hal).
      pose proof (fun d => proj1 (aligned_snoc c id PyNone PyNone PyNone d Hal)) as Hsn.
      destruct (last_timestamp (table c)) as [d|]; [|done].
      apply IH. apply Hsn.
Qed.

Lemma rows_of_ids_present ids avail_dict c :
  aligned c ->
  (forall id, id ∈ ids -> exists items, avail_dict !! id = Some items /\
                            Forall (fun item => length item.2 = 3%nat) items) ->
  exists c', rows_of_ids ids avail_dict c = Returned c' /\
             table c' = table c
                        ++ flat_map (fun id => subtype_rows id (default [] (avail_dict !! id))) ids.
Proof.
  revert c. induction ids as [|id ids IH]; intros c Hal Hall.
  - exists c. split; [done|]. cbn. by rewrite app_nil_r.
  - destruct (Hall id) as (items & Hd & Hwf); [by left|].
    cbn [rows_of_ids flat_map]. rewrite Hd. cbn [default].
    destruct (rows_of_subtypes_returns id items c Hwf) as [c1 Hr]. rewrite Hr.
    destruct (rows_of_subtypes_returned _ _ _ _ Hal Hr) as (Hal1 & Htab1 & _).
    destruct (IH c1 Hal1) as (c' & Hr' & Htab'). { intros id' Hin. apply Hall. by right. }
    exists c'. split; [done|]. rewrite Htab', Htab1. unfold subtypes in *.
    rewrite Hd. cbn [default]. by rewrite <- app_assoc.
Qed.

(** X12.  When every identifier of [charger_ids] is in the merged
    dictionary and every sub-type value has three fields, the table has,
    identifier after identifier in the order of [charger_ids], one row per
    sub-type in the order of the dictionary, holding the identifier, the
    sub-type and the three fields; an identifier without sub-types gives no
    row. *)
Theorem into_DataFrame_all_present charger_ids avail_list_of_dicts :
  (forall id, id ∈ charger_ids ->
     exists items, merge_dicts avail_list_of_dicts !! id = Some items /\
                   Forall (fun item => length item.2 = 3%nat) items) ->
  into_DataFrame charger_ids avail_list_of_dicts
  = Returned
      {| df_columns := ["Id"; "Charger_type"; "Available"; "Total"; "timestamp"];
         df_rows := flat_map (fun id => subtype_rows id
                                (default [] (merge_dicts avail_list_of_dicts !! id)))
                             charger_ids |}.
Proof.
  intros Hall. unfold into_DataFrame.
  destruct (rows_of_ids_present charger_ids _ no_columns aligned_no_columns Hall)
    as (c & -> & Htab).
  by rewrite Htab.
Qed.

(** X13.  The records built for an identifier missing from the
    dictionary, put behind identifiers for which the loop returns: when
    there is a record so far, the loop adds one record of [None]s for the
    identifier, with the timestamp of the last record so far; when there is
    no record so far, it raises [UnboundLocalError].  (The records are the
    rows handed to [pd.DataFrame]; how pandas stores a [None] is not part
    of the statement.) *)
Theorem rows_of_ids_missing_appended charger_ids id avail_dict c :
  rows_of_ids charger_ids avail_dict no_columns = Returned c ->
  avail_dict !! id = None ->
  match last_timestamp (table c) with
  | Some d =>
    exists c',
      rows_of_ids (charger_ids ++ [id]) avail_dict no_columns = Returned c' /\
      table c' = table c ++ [(id, PyNone, PyNone, PyNone, d)]
  | None =>
    rows_of_ids (charger_ids ++ [id]) avail_dict no_columns
    = Raised (Exc UnboundLocalError
        "cannot access local variable 'datestamp_' where it is not associated with a value")
  end.
Proof.
  intros Hr Hmiss. rewrite rows_of_ids_app, Hr.
  pose proof (rows_of_ids_aligned _ _ _ _ aligned_no_columns Hr) as Hal.
  cbn [rows_of_ids]. rewrite Hmiss, (null_row_returned id c Hal).
  pose proof (fun d => proj2 (aligned_snoc c id PyNone PyNone PyNone d Hal)) as Hsn.
  destruct (last_timestamp (table c)) as [d|]; [|done].
  eexists. split; [done|]. by rewrite Hsn.
Qed.

(** X14.  An identifier whose sub-type dictionary holds a value that does
    not have exactly three fields, put behind identifiers for which the
    transform returns: the transform raises [ValueError], whatever follows
    the identifier in [charger_ids]. *)
Theorem into_DataFrame_bad_arity charger_ids id rest avail_list_of_dicts df items :
  into_DataFrame charger_ids avail_list_of_dicts = Returned df ->
  merge_dicts avail_list_of_dicts !! id = Some items ->
  ~ Forall (fun item => length item.2 = 3%nat) items ->
  exists msg,
    into_DataFrame (charger_ids ++ id :: rest) avail_list_of_dicts
    = Raised (Exc ValueError msg).
Proof.
  unfold into_DataFrame. intros Hdf Hit Hbad. rewrite rows_of_ids_app.
  destruct (rows_of_ids charger_ids _ no_columns) as [c|e] eqn:Hr; [|done].
  cbn [rows_of_ids]. rewrite Hit.
  destruct (rows_of_subtypes_bad_arity id items c Hbad) as [msg ->]. by exists msg.
Qed.

Lemma merge_dicts_skips (ds : list (gmap string subtypes)) acc k :
  (forall d, d ∈ ds -> d !! k = None) ->
  foldl (fun avail_dict dict_ => dict_ ∪ avail_dict) acc ds !! k = acc !! k.
Proof.
  revert acc. induction ds as [|d ds IH]; intros acc Hnone; [done|].
  cbn [foldl]. rewrite IH by (intros d' Hin; apply Hnone; by right).
  rewrite lookup_union, (Hnone d) by (by left). by destruct (acc !! k).
Qed.

(** X15.  Merging the list of dictionaries: a key has the value of the
    last dictionary of the list that holds it, and no value when no
    dictionary holds it. *)
Theorem merge_dicts_last_wins (ds1 ds2 : list (gmap string subtypes)) d k v :
  (d !! k = Some v -> (forall d', d' ∈ ds2 -> d' !! k = None) ->
   merge_dicts (ds1 ++ d :: ds2) !! k = Some v) /\
  ((forall d', d' ∈ ds1 -> d' !! k = None) -> merge_dicts ds1 !! k = None).
Proof.
  unfold merge_dicts. split.
  - intros Hd Hnone. rewrite foldl_app. cbn [foldl].
    rewrite merge_dicts_skips by done. rewrite lookup_union, Hd.
    by destruct (foldl _ _ _ !! k).
  - intros Hnone. by rewrite merge_dicts_skips.
Qed.

End TransformFacts.

(** ** Partitioning never loses an entry *)

Section ShardBudgets.

Context {Payload Tools : Type} {impl : Scraper Payload Tools}.
Variable self : base_scraper Payload.

Local Abbreviation tools := (__setup__ (silent self)).
Local Abbreviation opts := (options self).
Local Abbreviation nmax := (nmaxtimeouts self).
Local Abbreviation loop := (for_loop self tools opts nmax).

(** The case analysis of one iteration, from two states at once. *)
Ltac fetch_cases2 id st1 st2 :=
  destruct (identifiers_urls self !! id) as [url|] eqn:Hu;
  [ destruct (query_url url (__setup__ (silent self)) (options self)) as [p|e] eqn:Hq;
    [ rewrite (loop_body_success self id st1 url p Hu Hq),
              (loop_body_success self id st2 url p Hu Hq)
    | destruct (isinstance_Timeout e) eqn:He;
      [ rewrite (loop_body_timeout self id st1 url e Hu Hq He),
                (loop_body_timeout self id st2 url e Hu Hq He)
      | destruct (isinstance_RequestException e) eqn:Hr;
        [ rewrite (loop_body_generic self id st1 url e Hu Hq He Hr),
                  (loop_body_generic self id st2 url e Hu Hq He Hr)
        | rewrite (loop_body_uncaught self id st1 url e Hu Hq Hr),
                  (loop_body_uncaught self id st2 url e Hu Hq Hr) ] ] ]
  | rewrite (loop_body_no_url self id st1 Hu), (loop_body_no_url self id st2 Hu) ].

(** A loop that runs through a list from some counter runs through it
    from any smaller counter. *)
Lemma loop_mono l st1 st2 t2 st2' :
  loop l st2 = (t2, Returned (st2', Continue)) ->
  ntimeouts st1 <= ntimeouts st2 ->
  exists t1 st1', loop l st1 = (t1, Returned (st1', Continue)).
Proof.
  revert st1 st2 t2. induction l as [|id l IH]; intros st1 st2 t2.
  - intros _ _. by exists [], st1.
  - rewrite !loop_cons. fetch_cases2 id st1 st2; cbn [bind snd fst]; try done.
    + destruct (loop l _) as [t r] eqn:Hl2 at 1. intros [= <- ->] Hle.
      edestruct (IH {| results := <[id:=p]> (results st1); ntimeouts := ntimeouts st1;
                       timeoutted_identifiers := timeoutted_identifiers st1 |} _ _ Hl2)
        as (t1 & st1' & ->); [cbn; lia | by eexists _, _].
    + destruct (ntimeouts st2 + 1 >? nmax) eqn:H2; cbn [bind snd fst]; [done|].
      intros Hl Hle. assert ((ntimeouts st1 + 1 >? nmax) = false) as -> by lia.
      cbn [bind snd fst]. destruct (loop l (count_failure st2 _)) as [t r] eqn:Hl2.
      injection Hl as <- ->.
      edestruct (IH (count_failure st1 [id]) _ _ Hl2) as (t1 & st1' & ->);
        [cbn; lia | by eexists _, _].
    + destruct (ntimeouts st2 + 1 >=? nmax) eqn:H2; cbn [bind snd fst]; [done|].
      intros Hl Hle. assert ((ntimeouts st1 + 1 >=? nmax) = false) as -> by lia.
      cbn [bind snd fst]. destruct (loop l (count_failure st2 _)) as [t r] eqn:Hl2.
      injection Hl as <- ->.
      edestruct (IH (count_failure st1 []) _ _ Hl2) as (t1 & st1' & ->);
        [cbn; lia | by eexists _, _].
Qed.

(** An entry the loop adds belongs to a position of the list that the
    loop reached, and is the payload of its identifier. *)
Lemma loop_entry_position ids st t st' c k v :
  loop ids st = (t, Returned (st', c)) ->
  results st' !! k = Some v ->
  results st !! k = Some v \/
  (payload_of self k = Some v /\
   exists j tj stj, ids !! j = Some k /\ loop (take j ids) st = (tj, Returned (stj, Continue))).
Proof.
  revert st t. induction ids as [|id ids IH]; intros st t.
  - intros [= <- <- <-] Hk. by left.
  - rewrite loop_cons. intros H Hk.
    apply bind_inv_returned in H as (t1 & [st1 c1] & t2 & Hb & Hrest & ->).
    destruct (loop_body_returned self id st t1 st1 c1 Hb) as (url & Hu & _ & Hout).
    assert (results st1 !! k = Some v ->
            results st !! k = Some v \/
            (payload_of self k = Some v /\
             exists j tj stj, (id :: ids) !! j = Some k /\
               loop (take j (id :: ids)) st = (tj, Returned (stj, Continue)))) as Hstep.
    { intros Hin. destruct Hout as [(p & Hq & Hres & _ & _)|(e & _ & _ & Hres & _)].
      - rewrite Hres in Hin. destruct (decide (id = k)) as [->|Hne].
        + rewrite lookup_insert_eq in Hin. injection Hin as ->. right. split.
          { unfold payload_of, fetch. by rewrite Hu, Hq. }
          by exists 0%nat, [], st.
        + rewrite lookup_insert_ne in Hin by done. by left.
      - rewrite Hres in Hin. by left. }
    cbn [snd fst] in Hrest. destruct c1.
    + destruct (IH _ _ Hrest Hk) as [Hin|(Hp & j & tj & stj & Hj & Hreach)]; [by apply Hstep|].
      right. split; [done|]. exists (S j). cbn [take].
      rewrite loop_cons, Hb. cbn [bind snd fst]. rewrite Hreach. by eexists _, _.
    + injection Hrest as <- <- <-. by apply Hstep.
Qed.

(** The loop keeps an entry that is the payload of its key. *)
Lemma loop_keeps_payload ids st t st' c k v :
  loop ids st = (t, Returned (st', c)) ->
  payload_of self k = Some v ->
  results st !! k = Some v ->
  results st' !! k = Some v.
Proof.
  revert st t. induction ids as [|id ids IH]; intros st t.
  - by intros [= <- <- <-].
  - rewrite loop_cons. intros H Hp Hk.
    apply bind_inv_returned in H as (t1 & [st1 c1] & t2 & Hb & Hrest & ->).
    destruct (loop_body_returned self id st t1 st1 c1 Hb) as (url & Hu & _ & Hout).
    assert (results st1 !! k = Some v) as Hk1.
    { destruct Hout as [(p & Hq & Hres & _ & _)|(e & _ & _ & Hres & _)]; rewrite Hres; [|done].
      destruct (decide (id = k)) as [->|Hne].
      - rewrite lookup_insert_eq. unfold payload_of, fetch in Hp. rewrite Hu, Hq in Hp.
        by injection Hp as ->.
      - by rewrite lookup_insert_ne. }
    cbn [snd fst] in Hrest. destruct c1.
    + by eapply IH.
    + by injection Hrest as <- <- <-.
Qed.

(** A position the loop reaches whose fetch succeeds leaves its entry in
    the final [results]. *)
Lemma loop_reached_success ids st t st' c j k v tj stj :
  loop ids st = (t, Returned (st', c)) ->
  ids !! j = Some k ->
  loop (take j ids) st = (tj, Returned (stj, Continue)) ->
  payload_of self k = Some v ->
  results st' !! k = Some v.
Proof.
  intros Hl Hj Hreach Hp.
  rewrite <- (take_drop_middle ids j k Hj) in Hl.
  rewrite (loop_app_continue self _ _ _ _ _ Hreach), loop_cons in Hl.
  assert (exists url, identifiers_urls self !! k = Some url /\
                      query_url url tools opts = Returned v) as (url & Hu & Hq).
  { unfold payload_of, fetch in Hp.
    destruct (identifiers_urls self !! k) as [url|]; [|done].
    destruct (query_url url tools opts) as [p|e] eqn:Hq; [|done]. injection Hp as ->. by exists url. }
  rewrite (loop_body_success self k stj url v Hu Hq) in Hl. cbn [bind snd fst] in Hl.
  destruct (loop (drop (S j) ids) _) as [t2 r2] eqn:Hl2. cbn [fst snd] in Hl.
  injection Hl as _ ->.
  eapply loop_keeps_payload; [exact Hl2 | done |]. cbn. by rewrite lookup_insert_eq.
Qed.

(** The shard of a position of the concatenation. *)
Lemma concat_position {A} (shards : list (list A)) j x :
  concat shards !! j = Some x ->
  exists pre s post q,
    shards = pre ++ s :: post /\ s !! q = Some x /\
    take j (concat shards) = concat pre ++ take q s.
Proof.
  revert j. induction shards as [|s0 shards IH]; intros j; [done|].
  cbn [concat]. intros Hj. destruct (decide (j < length s0)%nat) as [Hlt|Hge].
  - rewrite lookup_app_l in Hj by done.
    exists [], s0, shards, j. split; [done|]. split; [done|].
    cbn. by rewrite take_app_le by lia.
  - rewrite lookup_app_r in Hj by lia.
    destruct (IH _ Hj) as (pre & s & post & q & -> & Hq & Htake).
    exists (s0 :: pre), s, post, q. split; [done|]. split; [done|].
    cbn [concat]. rewrite take_app_ge by lia. by rewrite Htake, app_assoc.
Qed.

Lemma workers_return (shards : list (list string)) :
  (forall id, id ∈ concat shards -> exists url, identifiers_urls self !! id = Some url /\
     forall e, query_url url tools opts = Raised e -> isinstance_RequestException e = true) ->
  exists ms, Forall2 (fun s m => exists t, query_urls self s = (t, Returned m)) shards ms.
Proof.
  induction shards as [|s shards IH]; intros Hall.
  - by exists [].
  - destruct IH as [ms Hms].
    { intros id Hin. apply Hall. cbn [concat]. rewrite elem_of_app. by right. }
    destruct (query_urls_returns self s) as (t & m & Hq).
    { intros id Hin. apply Hall. cbn [concat]. rewrite elem_of_app. by left. }
    exists (m :: ms). constructor; eauto.
Qed.

Lemma foldl_union_some (ms : list (gmap string Payload)) acc k v :
  (forall m, m ∈ ms -> m !! k = None \/ m !! k = Some v) ->
  (acc !! k = Some v \/ exists m, m ∈ ms /\ m !! k = Some v) ->
  foldl (fun acc results_worker => results_worker ∪ acc) acc ms !! k = Some v.
Proof.
  revert acc. induction ms as [|m ms IH]; intros acc Hall Hsome.
  - destruct Hsome as [H|(m & Hin & _)]; [done | by apply elem_of_nil in Hin].
  - cbn [foldl]. apply IH; [intros m' Hin; apply Hall; by right|].
    rewrite lookup_union.
    destruct Hsome as [Hacc|(m' & [->|Hin]%elem_of_cons & Hm')].
    + left. rewrite Hacc. destruct (Hall m) as [->| ->]; [by left|done..].
    + left. rewrite Hm'. by destruct (acc !! k).
    + right. by exists m'.
Qed.

(** X16.  Partitioning never loses an entry: when no identifier ends in
    a NUL character, every identifier has a cached URL and no fetch raises
    outside the transport's classes, both modes return, and every entry of
    the map of the sequential batch is an entry of the map of the parallel
    run, for every positive number of workers.  (The budget of a worker
    starts afresh, so a shard is cut short no earlier than the sequential
    batch is.) *)
Theorem parallel_keeps_sequential_entries (W : Z) :
  0 < W ->
  Forall (fun id => nul_terminated id = false) (identifiers self) ->
  (forall id, id ∈ identifiers self -> exists url, identifiers_urls self !! id = Some url /\
     forall e, query_url url (__setup__ (silent self)) (options self) = Raised e ->
               isinstance_RequestException e = true) ->
  exists t_seq m_seq t_par m_par,
    query_urls self (identifiers self) = (t_seq, Returned m_seq) /\
    query_urls_parallel self W = (t_par, Returned m_par) /\
    m_seq ⊆ m_par.
Proof.
  intros HW Hnul Hall.
  destruct (query_urls_returns self (identifiers self) Hall) as (t_seq & m_seq & Hseq).
  destruct (array_split_concat (identifiers self) W HW Hnul) as (shards & Hsplit & Hconcat).
  destruct (workers_return shards) as [ms Hruns]; [by rewrite Hconcat|].
  exists t_seq, m_seq. eexists _, (flatten ms). split; [done|]. split.
  { unfold query_urls_parallel. rewrite Hsplit. unfold executor_map.
    by rewrite (collect_returned _ _ _ Hruns). }
  apply map_subseteq_spec. intros k v Hk.
  apply query_urls_returned in Hseq as (st & c & Hl & ->).
  destruct (loop_entry_position _ _ _ _ _ _ _ Hl Hk)
    as [Hinit|(Hp & j & tj & stj & Hj & Hreach)].
  { cbn in Hinit. by rewrite lookup_empty in Hinit. }
  rewrite <- Hconcat in Hj, Hreach.
  destruct (concat_position shards j k Hj) as (pre & s & post & q & Hsh & Hq & Htake).
  rewrite Htake, loop_app in Hreach.
  apply bind_inv_returned in Hreach as (ta & [sta ca] & tb & Hpre & Hshard & _).
  cbn [snd fst] in Hshard. destruct ca; [|done].
  pose proof (loop_counter self _ _ _ _ Hpre) as Hcount. cbn in Hcount.
  pose proof (count_failures_nonneg self (concat pre)) as Hnn.
  destruct (loop_mono (take q s) init_locals sta tb stj Hshard) as (tq & stq & Hreach');
    [cbn; lia|].
  unfold flatten. apply foldl_union_some.
  - intros m Hm. apply list_elem_of_lookup in Hm as [i Hi].
    destruct (Forall2_lookup_r _ _ _ _ _ Hruns Hi) as (s' & _ & t' & Hq').
    destruct (m !! k) as [v'|] eqn:Hv'; [|by left]. right.
    apply query_urls_returned in Hq' as (st' & c' & Hl' & ->).
    destruct (loop_results_init self _ _ _ _ _ _ Hl' Hv') as (_ & Hf & _).
    unfold payload_of in Hp. rewrite Hf in Hp. by injection Hp as ->.
  - right. assert (s ∈ shards) as Hin by (rewrite Hsh; set_solver).
    apply list_elem_of_lookup in Hin as [i Hi].
    destruct (Forall2_lookup_l _ _ _ _ _ Hruns Hi) as (m & Hm & t' & Hq').
    exists m. split; [by eapply list_elem_of_lookup_2|].
    apply query_urls_returned in Hq' as (st' & c' & Hl' & ->).
    by eapply loop_reached_success.
Qed.

End ShardBudgets.

(** ** Shard sizes and the subclass constructor *)

Section SplitSizes.

Context {A : Type} {array_of : ArrayItem A}.

(** X17.  The sizes of the shards, in shard order: with [q] and [r] the
    quotient and remainder of the number of identifiers by the number of
    workers, the first [r] shards have [q + 1] identifiers and the other
    shards [q]; so with more workers than identifiers the first shards hold
    one identifier each and the remaining ones are empty. *)
Theorem array_split_sizes (l : list A) (W : Z) :
  1 <= W ->
  exists shards,
    array_split l W = Returned shards /\
    map length shards
    = replicate (length l mod Z.to_nat W) (length l / Z.to_nat W + 1)%nat
      ++ replicate (Z.to_nat W - length l mod Z.to_nat W) (length l / Z.to_nat W)%nat /\
    (Z.of_nat (length l) < W ->
     map length shards = replicate (length l) 1%nat
                         ++ replicate (Z.to_nat W - length l) 0%nat).
Proof.
  intros HW. rewrite array_split_unfold by lia. eexists. split; [done|].
  assert (0 < Z.to_nat W)%nat as Hn by lia.
  pose proof (sum_section_sizes (length l) (Z.to_nat W) Hn) as Hsum.
  rewrite length_slices by (rewrite Hsum, length_map; lia). split; [done|].
  intros Hlt. rewrite Nat.mod_small, Nat.div_small by lia. done.
Qed.

End SplitSizes.

(** X18.  The subclass constructor: left at its default, [url_re] is a
    dictionary, so constructing a [scraper] without a template raises the
    [TypeError] of the base constructor whatever the other arguments are;
    with a template given it returns what the base constructor returns. *)
Theorem scraper_init_template {Payload : Type} kw out ids sil sj o :
  scraper_init (Payload:=Payload) kw out ids None sil sj o
  = Some ([], Raised (Exc TypeError
      "url_re must be a str template consisting of an url with variable input")) /\
  forall v, scraper_init (Payload:=Payload) kw out ids (Some v) sil sj o
            = __init__ kw out ids v sil sj o.
Proof.
  split; [done|]. intros v. unfold scraper_init.
  change (default (PyObject "dict") (Some v)) with v. unfold __init__.
  destruct v as [| | | |template|]; try done.
  destruct kw as [| | | |kw|]; try done.
  by destruct (construct_urls template ids) as [[us|e]|].
Qed.

(** ** The further properties at concrete inputs *)

(** Every identifier of a concrete list has a cached URL in the test
    double and fails, if it fails, with a transport error. *)
Ltac tolerated_fetches :=
  let id := fresh "id" in let Hin := fresh "Hin" in
  intros id Hin;
  repeat (apply elem_of_cons in Hin as [->|Hin]);
  [ eexists; (split; [reflexivity|]);
    let e := fresh "e" in let He := fresh "He" in
    intros e He; vm_compute in He;
    first [ discriminate He | injection He as <-; reflexivity ] ..
  | by apply elem_of_nil in Hin ].

Lemma failures_bounded_by_budget_witness :
  exists t st c,
    query_loop (demo_scraper ["t1"; "t2"; "t3"; "s1"] 1) ["t1"; "t2"; "t3"; "s1"]
      = (t, Returned (st, c)) /\
    ntimeouts st = count_failures (demo_scraper ["t1"; "t2"; "t3"; "s1"] 1)
                     (take (length (queries t)) ["t1"; "t2"; "t3"; "s1"]) /\
    count_failures (demo_scraper ["t1"; "t2"; "t3"; "s1"] 1)
                   (take (length (queries t)) ["t1"; "t2"; "t3"; "s1"])
      <= Z.max (nmaxtimeouts (demo_scraper ["t1"; "t2"; "t3"; "s1"] 1)) 0 + 1.
Proof.
  eexists _, _, _. split; [reflexivity|].
  edestruct (failures_bounded_by_budget (demo_scraper ["t1"; "t2"; "t3"; "s1"] 1)
               ["t1"; "t2"; "t3"; "s1"]) as (H1 & H2 & _); [reflexivity|].
  split; [exact H1 | exact H2].
Defined.

Lemma batch_exception_origin_witness :
  exists t,
    query_urls (demo_scraper ["s1"; "x1"; "s2"] 10) ["s1"; "x1"; "s2"]
      = (t, Raised (Exc ValueError "malformed payload")) /\
    exists id, id ∈ ["s1"; "x1"; "s2"] /\
      ((identifiers_urls (demo_scraper ["s1"; "x1"; "s2"] 10) !! id = None /\
        Exc ValueError "malformed payload" = Exc KeyError id) \/
       (fetch (demo_scraper ["s1"; "x1"; "s2"] 10) id
          = Some (Raised (Exc ValueError "malformed payload")) /\
        isinstance_RequestException (Exc ValueError "malformed payload") = false)).
Proof.
  eexists. split; [reflexivity|].
  eapply (batch_exception_origin (demo_scraper ["s1"; "x1"; "s2"] 10) ["s1"; "x1"; "s2"]).
  reflexivity.
Defined.

Lemma failures_within_budget_witness :
  (forall id, id ∈ ["s1"; "t1"; "s2"] ->
     exists url, identifiers_urls (demo_scraper ["s1"; "t1"; "s2"] 3) !! id = Some url /\
       forall e, query_url url (__setup__ true) ∅ = Raised e ->
                 isinstance_RequestException e = true) /\
  count_failures (demo_scraper ["s1"; "t1"; "s2"] 3) ["s1"; "t1"; "s2"] < 3 /\
  exists t m,
    query_urls (demo_scraper ["s1"; "t1"; "s2"] 3) ["s1"; "t1"; "s2"] = (t, Returned m) /\
    Forall2 (fun id url =>
               identifiers_urls (demo_scraper ["s1"; "t1"; "s2"] 3) !! id = Some url)
            ["s1"; "t1"; "s2"] (queries t) /\
    forall k, m !! k = if decide (k ∈ ["s1"; "t1"; "s2"])
                       then payload_of (demo_scraper ["s1"; "t1"; "s2"] 3) k else None.
Proof.
  assert (forall id, id ∈ ["s1"; "t1"; "s2"] ->
     exists url, identifiers_urls (demo_scraper ["s1"; "t1"; "s2"] 3) !! id = Some url /\
       forall e, query_url url (__setup__ true) ∅ = Raised e ->
                 isinstance_RequestException e = true) as Hall by tolerated_fetches.
  assert (count_failures (demo_scraper ["s1"; "t1"; "s2"] 3) ["s1"; "t1"; "s2"] < 3)
    as Hlt by (by vm_compute).
  split; [exact Hall|]. split; [exact Hlt|].
  exact (failures_within_budget (demo_scraper ["s1"; "t1"; "s2"] 3) ["s1"; "t1"; "s2"] Hall Hlt).
Defined.

Lemma halt_is_logged_witness :
  exists t st c,
    query_loop (demo_scraper ["g1"; "s1"] 1) ["g1"; "s1"] = (t, Returned (st, c)) /\
    (c = Break <-> Log ERROR "===== Full Stop  =====" ∈ t).
Proof.
  eexists _, _, _. split; [reflexivity|].
  eapply (halt_is_logged (demo_scraper ["g1"; "s1"] 1) ["g1"; "s1"]). reflexivity.
Defined.

Lemma sleep_before_every_query_witness :
  _sleep (demo_sleepy_scraper ["s1"; "t1"] 5 (1 # 2)) = __sleep_func (1 # 2) /\
  (forall id, id ∈ ["s1"; "t1"] ->
     is_Some (identifiers_urls (demo_sleepy_scraper ["s1"; "t1"] 5 (1 # 2)) !! id)) /\
  sleeps (query_urls (demo_sleepy_scraper ["s1"; "t1"] 5 (1 # 2)) ["s1"; "t1"]).1
  = if Qlt_le_dec 0 (1 # 2)
    then replicate
           (length (queries (query_urls (demo_sleepy_scraper ["s1"; "t1"] 5 (1 # 2))
                                        ["s1"; "t1"]).1)) (1 # 2)%Q
    else [].
Proof.
  assert (forall id, id ∈ ["s1"; "t1"] ->
     is_Some (identifiers_urls (demo_sleepy_scraper ["s1"; "t1"] 5 (1 # 2)) !! id)) as Hall.
  { intros id Hin. repeat (apply elem_of_cons in Hin as [->|Hin]);
      [eexists; reflexivity .. | by apply elem_of_nil in Hin]. }
  split; [reflexivity|]. split; [exact Hall|].
  exact (sleep_before_every_query (demo_sleepy_scraper ["s1"; "t1"] 5 (1 # 2)) (1 # 2)
           ["s1"; "t1"] eq_refl Hall).
Defined.

Example sleeps_of_a_batch :
  sleeps (query_urls (demo_sleepy_scraper ["s1"; "t1"] 5 (1 # 2)) ["s1"; "t1"]).1
  = [(1 # 2)%Q; (1 # 2)%Q].
Proof. vm_compute. reflexivity. Qed.

Lemma parallel_equals_sequential_within_budget_witness :
  1 < 2 /\
  Forall (fun id => nul_terminated id = false) ["s1"; "t1"; "s2"; "g1"] /\
  (forall id, id ∈ ["s1"; "t1"; "s2"; "g1"] ->
     exists url, identifiers_urls (demo_scraper ["s1"; "t1"; "s2"; "g1"] 5) !! id = Some url /\
       forall e, query_url url (__setup__ true) ∅ = Raised e ->
                 isinstance_RequestException e = true) /\
  count_failures (demo_scraper ["s1"; "t1"; "s2"; "g1"] 5) ["s1"; "t1"; "s2"; "g1"] < 5 /\
  (query_urls_parallel (demo_scraper ["s1"; "t1"; "s2"; "g1"] 5) 2).2
  = (query_urls (demo_scraper ["s1"; "t1"; "s2"; "g1"] 5) ["s1"; "t1"; "s2"; "g1"]).2.
Proof.
  assert (forall id, id ∈ ["s1"; "t1"; "s2"; "g1"] ->
     exists url, identifiers_urls (demo_scraper ["s1"; "t1"; "s2"; "g1"] 5) !! id = Some url /\
       forall e, query_url url (__setup__ true) ∅ = Raised e ->
                 isinstance_RequestException e = true) as Hall by tolerated_fetches.
  assert (count_failures (demo_scraper ["s1"; "t1"; "s2"; "g1"] 5)
                         ["s1"; "t1"; "s2"; "g1"] < 5) as Hlt by (by vm_compute).
  assert (Forall (fun id => nul_terminated id = false) ["s1"; "t1"; "s2"; "g1"]) as Hnul
    by (by repeat constructor).
  split; [lia|]. split; [exact Hnul|]. split; [exact Hall|]. split; [exact Hlt|].
  destruct (parallel_equals_sequential_within_budget
              (demo_scraper ["s1"; "t1"; "s2"; "g1"] 5) 2 ltac:(lia) Hnul Hall Hlt)
    as (t_seq & t_par & m & Hseq & Hpar & _).
  cbn [identifiers demo_scraper] in Hseq. by rewrite Hseq, Hpar.
Defined.

Lemma first_failing_shard_wins_witness :
  2 <> 1 /\
  array_split (identifiers (demo_scraper ["s1"; "s2"; "x1"; "s3"] 10)) 2
    = Returned [["s1"; "s2"]; ["x1"; "s3"]] /\
  [["s1"; "s2"]; ["x1"; "s3"]] = [["s1"; "s2"]] ++ ["x1"; "s3"] :: [] /\
  exists t,
    query_urls (demo_scraper ["s1"; "s2"; "x1"; "s3"] 10) ["x1"; "s3"]
      = (t, Raised (Exc ValueError "malformed payload")) /\
    exists t', run (demo_scraper ["s1"; "s2"; "x1"; "s3"] 10) (PyInt 2)
               = (t', Raised (Exc ValueError "malformed payload")) /\
               Worker 1 t ∈ t'.
Proof.
  split; [lia|]. split; [reflexivity|]. split; [reflexivity|].
  eexists. split; [reflexivity|].
  apply (first_failing_shard_wins (demo_scraper ["s1"; "s2"; "x1"; "s3"] 10) 2
           [["s1"; "s2"]; ["x1"; "s3"]] [["s1"; "s2"]] ["x1"; "s3"] [] _ _
           ltac:(lia) eq_refl eq_refl); [|reflexivity].
  intros s' Hin. apply elem_of_cons in Hin as [->|Hin]; [|by apply elem_of_nil in Hin].
  eexists _, _. reflexivity.
Defined.

Lemma parallel_keeps_sequential_entries_witness :
  0 < 2 /\
  Forall (fun id => nul_terminated id = false) ["t1"; "s1"; "t2"; "s2"] /\
  (forall id, id ∈ ["t1"; "s1"; "t2"; "s2"] ->
     exists url, identifiers_urls (demo_scraper ["t1"; "s1"; "t2"; "s2"] 1) !! id = Some url /\
       forall e, query_url url (__setup__ true) ∅ = Raised e ->
                 isinstance_RequestException e = true) /\
  exists t_seq m_seq t_par m_par,
    query_urls (demo_scraper ["t1"; "s1"; "t2"; "s2"] 1) ["t1"; "s1"; "t2"; "s2"]
      = (t_seq, Returned m_seq) /\
    query_urls_parallel (demo_scraper ["t1"; "s1"; "t2"; "s2"] 1) 2 = (t_par, Returned m_par) /\
    m_seq ⊆ m_par.
Proof.
  assert (forall id, id ∈ ["t1"; "s1"; "t2"; "s2"] ->
     exists url, identifiers_urls (demo_scraper ["t1"; "s1"; "t2"; "s2"] 1) !! id = Some url /\
       forall e, query_url url (__setup__ true) ∅ = Raised e ->
                 isinstance_RequestException e = true) as Hall by tolerated_fetches.
  assert (Forall (fun id => nul_terminated id = false) ["t1"; "s1"; "t2"; "s2"]) as Hnul
    by (by repeat constructor).
  split; [lia|]. split; [exact Hnul|]. split; [exact Hall|].
  exact (parallel_keeps_sequential_entries (demo_scraper ["t1"; "s1"; "t2"; "s2"] 1) 2
           ltac:(lia) Hnul Hall).
Defined.

(** There the parallel run has an entry more than the sequential batch:
    the budget of each worker starts afresh. *)
Example parallel_strictly_more :
  dom (default ∅ (match (query_urls (demo_scraper ["t1"; "s1"; "t2"; "s2"] 1)
                                    ["t1"; "s1"; "t2"; "s2"]).2 with
                  | Returned m => Some m | Raised _ => None end))
    = ({[ "s1" ]} : gset string) /\
  dom (default ∅ (match (query_urls_parallel (demo_scraper ["t1"; "s1"; "t2"; "s2"] 1) 2).2 with
                  | Returned m => Some m | Raised _ => None end))
    = ({[ "s1"; "s2" ]} : gset string).
Proof. split; vm_compute; reflexivity. Qed.

Lemma construct_urls_one_slot_witness :
  braceless "https://api.test/" /\ braceless "/status" /\
  construct_urls ("https://api.test/" +:+ "{}" +:+ "/status") ["c7"; "c8"]
  = Some (Returned (map (fun id => "https://api.test/" +:+ id +:+ "/status") ["c7"; "c8"])).
Proof.
  assert (braceless "https://api.test/") as Hp.
  { unfold braceless. cbn [list_ascii_of_string]. repeat constructor; discriminate. }
  assert (braceless "/status") as Hs.
  { unfold braceless. cbn [list_ascii_of_string]. repeat constructor; discriminate. }
  split; [exact Hp|]. split; [exact Hs|].
  destruct (construct_urls_one_slot "https://api.test/" "/status" ["c7"; "c8"] Hp Hs)
    as (_ & Hurls & _).
  exact Hurls.
Defined.

Lemma constructor_caches_urls_witness :
  exists self,
    __init__ (Payload:=string) (PyStr "demo") "out" ["s1"; "t1"; "s1"]
             (PyStr "https://api.test/{}") true true None
    = Some ([], Returned self) /\
    identifiers self = ["s1"; "t1"; "s1"] /\
    identifiers_urls self !! "s1" = Some "https://api.test/s1" /\
    nmaxtimeouts self = 10.
Proof.
  eexists. split; [reflexivity|].
  edestruct (constructor_caches_urls (Payload:=string) (PyStr "demo") "out" ["s1"; "t1"; "s1"]
               (PyStr "https://api.test/{}") true true None)
    as (template & Hv & _ & Hids & _ & _ & Hcache & Hmax & _); [reflexivity|].
  injection Hv as <-.
  split; [exact Hids|]. split; [|exact Hmax].
  destruct (Hcache 2%nat "s1" eq_refl) as (url & Hfmt & _ & Hlookup).
  vm_compute in Hfmt. injection Hfmt as <-. exact Hlookup.
Defined.

Lemma into_DataFrame_all_present_witness :
  (forall id, id ∈ ["a"; "b"] ->
     exists items,
       merge_dicts [ {[ "a" := [("AC", [PyInt 1; PyInt 2; PyStr "12:00"])] ]};
                     {[ "b" := [] ]} ] !! id = Some items /\
       Forall (fun item : string * list pyval => length item.2 = 3%nat) items) /\
  into_DataFrame ["a"; "b"]
    [ {[ "a" := [("AC", [PyInt 1; PyInt 2; PyStr "12:00"])] ]}; {[ "b" := [] ]} ]
  = Returned
      {| df_columns := ["Id"; "Charger_type"; "Available"; "Total"; "timestamp"];
         df_rows :=
           flat_map (fun id => subtype_rows id
                       (default []
                          (merge_dicts
                             [ {[ "a" := [("AC", [PyInt 1; PyInt 2; PyStr "12:00"])] ]};
                               {[ "b" := [] ]} ] !! id)))
                    ["a"; "b"] |}.
Proof.
  assert (forall id, id ∈ ["a"; "b"] ->
     exists items,
       merge_dicts [ {[ "a" := [("AC", [PyInt 1; PyInt 2; PyStr "12:00"])] ]};
                     {[ "b" := [] ]} ] !! id = Some items /\
       Forall (fun item : string * list pyval => length item.2 = 3%nat) items) as Hall.
  { intros id Hin. repeat (apply elem_of_cons in Hin as [->|Hin]);
      [ eexists; split; [vm_compute; reflexivity | repeat constructor] ..
      | by apply elem_of_nil in Hin ]. }
  split; [exact Hall|].
  exact (into_DataFrame_all_present ["a"; "b"] _ Hall).
Defined.

Lemma rows_of_ids_missing_appended_witness :
  exists c c',
    rows_of_ids ["a"] {[ "a" := [("AC", [PyInt 1; PyInt 2; PyStr "12:00"])] ]} no_columns
      = Returned c /\
    ({[ "a" := [("AC", [PyInt 1; PyInt 2; PyStr "12:00"])] ]} : gmap string subtypes) !! "b"
      = None /\
    rows_of_ids (["a"] ++ ["b"]) {[ "a" := [("AC", [PyInt 1; PyInt 2; PyStr "12:00"])] ]}
                no_columns
      = Returned c' /\
    zip5 (ids_ c') (types_ c') (avails_ c') (totals_ c') (datestamps_ c')
      = [("a", PyStr "AC", PyInt 1, PyInt 2, PyStr "12:00");
         ("b", PyNone, PyNone, PyNone, PyStr "12:00")].
Proof.
  eassert (rows_of_ids ["a"] {[ "a" := [("AC", [PyInt 1; PyInt 2; PyStr "12:00"])] ]}
                       no_columns = Returned _) as Hr by (vm_compute; reflexivity).
  assert (({[ "a" := [("AC", [PyInt 1; PyInt 2; PyStr "12:00"])] ]} : gmap string subtypes)
            !! "b" = None) as Hmiss by (vm_compute; reflexivity).
  pose proof (rows_of_ids_missing_appended ["a"] "b" _ _ Hr Hmiss) as H.
  cbn in H. destruct H as (c' & Hr' & Htab).
  eexists _, c'. split; [exact Hr|]. split; [exact Hmiss|]. split; [exact Hr'|]. exact Htab.
Defined.

Lemma into_DataFrame_bad_arity_witness :
  exists df,
    into_DataFrame [] [ {[ "a" := [("AC", [PyInt 1; PyInt 2])] ]} ] = Returned df /\
    merge_dicts [ {[ "a" := [("AC", [PyInt 1; PyInt 2])] ]} ] !! "a"
      = Some [("AC", [PyInt 1; PyInt 2])] /\
    ~ Forall (fun item : string * list pyval => length item.2 = 3%nat)
             [("AC", [PyInt 1; PyInt 2])] /\
    exists msg,
      into_DataFrame ([] ++ "a" :: ["b"]) [ {[ "a" := [("AC", [PyInt 1; PyInt 2])] ]} ]
      = Raised (Exc ValueError msg).
Proof.
  eexists. split; [vm_compute; reflexivity|].
  assert (merge_dicts [ {[ "a" := [("AC", [PyInt 1; PyInt 2])] ]} ] !! "a"
          = Some [("AC", [PyInt 1; PyInt 2])]) as Hit by (vm_compute; reflexivity).
  assert (~ Forall (fun item : string * list pyval => length item.2 = 3%nat)
                   [("AC", [PyInt 1; PyInt 2])]) as Hbad.
  { intros H. apply Forall_cons in H as [H _]. cbn in H. discriminate H. }
  split; [exact Hit|]. split; [exact Hbad|].
  eapply (into_DataFrame_bad_arity [] "a" ["b"]); [vm_compute; reflexivity | exact Hit | exact Hbad].
Defined.

Lemma array_split_sizes_witness :
  1 <= 3 /\
  exists shards,
    array_split ["a"; "b"; "c"; "d"; "e"; "f"; "g"] 3 = Returned shards /\
    map length shards = [3; 2; 2]%nat.
Proof.
  split; [lia|].
  destruct (array_split_sizes ["a"; "b"; "c"; "d"; "e"; "f"; "g"] 3 ltac:(lia))
    as (shards & Hsplit & Hsizes & _).
  exists shards. split; [exact Hsplit | exact Hsizes].
Defined.

Example array_split_more_workers_than_identifiers :
  array_split ["a"; "b"] 4 = Returned [["a"]; ["b"]; []; []].
Proof. reflexivity. Qed.
